(** * MCP Chrome proxy: a model of [src/server.ts] as an event-driven
      transition system.

    The bridge is one Node.js process.  Its code runs in atomic turns: a
    turn starts when the event loop delivers something (an HTTP request, a
    signal, a timer, the settlement of a promise of the SDK) and runs until
    the handler suspends at an [await] on an SDK promise or finishes.  An
    [await] on one of the class's own async methods ([initChromeConnection],
    [cleanup]) resumes the caller in the same turn once the method is done.

    The state holds the two fields of [ChromeProxyServer], the objects of
    the SDK that the code constructs (clients, servers, transports, HTTP
    responses), the suspended continuations, the pending timers, and a trace
    of the calls made into the SDK and the process.  The SDK and the network
    are the environment: they decide which event comes next and whether an
    awaited promise resolves or rejects.  Console output is part of the
    trace, without the timestamp and request token that prefix a line and
    without the values read from a result of the child.  The two logging
    listeners on [req] and the keep-alive setting of its socket, which touch
    neither the bridge nor the response, are left out. *)

From Stdlib Require Import Ascii String List Bool Arith Lia.
Import ListNotations.
Open Scope string_scope.
Open Scope list_scope.

(** ** JavaScript [Map], with the entry list of ECMAScript: [delete] and
    [clear] leave an empty slot behind, [set] on a new key appends, and an
    iterator is an index into the list, so that entries added during an
    iteration are visited. *)
Module JsMap.
Section WithValue.
Context {V : Type}.

Definition t := list (option (string * V)).

Definition empty : t := [].

Fixpoint get (k : string) (m : t) : option V :=
  match m with
  | [] => None
  | Some (k', v) :: m' => if String.eqb k k' then Some v else get k m'
  | None :: m' => get k m'
  end.

Fixpoint set (k : string) (v : V) (m : t) : t :=
  match m with
  | [] => [Some (k, v)]
  | Some (k', v') :: m' =>
      if String.eqb k k' then Some (k, v) :: m'
      else Some (k', v') :: set k v m'
  | None :: m' => None :: set k v m'
  end.

Fixpoint delete (k : string) (m : t) : t :=
  match m with
  | [] => []
  | Some (k', v') :: m' =>
      if String.eqb k k' then None :: m'
      else Some (k', v') :: delete k m'
  | None :: m' => None :: delete k m'
  end.

Definition clear (m : t) : t := map (fun _ => None) m.

Fixpoint entries (m : t) : list (string * V) :=
  match m with
  | [] => []
  | Some e :: m' => e :: entries m'
  | None :: m' => entries m'
  end.

Definition size (m : t) : nat := length (entries m).

(** The iterator of [m.entries()]: [scan i m] looks for the first live
    slot of [m], whose head has index [i], and returns the entry with the
    index to continue from. *)
Fixpoint scan (i : nat) (m : t) : option (nat * (string * V)) :=
  match m with
  | [] => None
  | Some e :: _ => Some (S i, e)
  | None :: m' => scan (S i) m'
  end.

Definition next (idx : nat) (m : t) : option (nat * (string * V)) :=
  scan idx (skipn idx m).

(** The keys of a [Map] are distinct. *)
Definition wf (m : t) : Prop := NoDup (map fst (entries m)).
End WithValue.
Arguments t : clear implicits.
End JsMap.

(** ** Values of the program *)

(** What a [catch] receives: an [Error] with its message, or any other
    value, of which the code uses [String(error)]. *)
Inductive Thrown :=
| ErrorObj (message : string)
| NonError (shown : string).

(** Settlement of an awaited promise of the SDK. *)
Inductive Outcome :=
| Resolved
| Rejected (e : Thrown).

Definition ClientId := nat.
Definition ServerId := nat.
Definition TransportId := nat.
Definition ResId := nat.
Definition RpcId := nat.

(** The connection of a [Client] to the child process, as the SDK sees it. *)
Inductive ClientStatus :=
| Connecting
| Ready
| ConnectFailed
| Dropped
| Closed.

Inductive RpcMethod := ListTools | CallTool.

(** A [Server] of the SDK: the session it was made for and the request
    handlers registered on it by [setupHandlers]. *)
Record ServerObj := {
  sv_session : string;
  sv_handlers : list RpcMethod
}.

Inductive TransportKind := StreamableHTTP | StdioServer.

(** An entry of [activeSessions]. *)
Record Session := {
  server : ServerId;
  transport : TransportId
}.

(** The values of the object literals the code serialises: strings and
    booleans. *)
Inductive JsonValue :=
| JString (s : string)
| JBool (b : bool).

(** What [res.end] was given: nothing, a text, or [JSON.stringify] of an
    object literal, kept as its list of fields. *)
Inductive Body :=
| NoBody
| Text (s : string)
| Json (fields : list (string * JsonValue)).

Inductive ResEvent := Close | Finish | Error.

(** The functions that the code registers on a response: the two logging
    listeners of every exchange, and [cleanupSession]. *)
Inductive Listener :=
| LogResponseClosed
| LogResponseError
| CleanupSession.

(** An [http.ServerResponse], with the request token of its exchange. *)
Record Response := {
  requestId : string;
  headers : list (string * string);
  headersSent : bool;
  statusCode : option nat;
  body : Body;
  ended : bool;
  listeners : list (ResEvent * Listener)
}.

(** Who awaits [initChromeConnection]. *)
Inductive Caller :=
| FromStartHTTP
| FromListTools (rpc : RpcId)
| FromCallTool (rpc : RpcId) (name : string).

(** Suspended continuations, one constructor per [await] on an SDK
    promise, with the local variables that are live there. *)
Inductive Task :=
| TInitConnect (c : ClientId) (k : Caller)
| TStartupListTools
| TListTools (rpc : RpcId)
| TCallTool (rpc : RpcId) (name : string)
| TMcpConnect (r : ResId) (method : string) (sv : ServerId) (tr : TransportId)
| TMcpHandle (r : ResId)
| TSessionCloseTransport (sess : Session)
| TSessionCloseServer (sess : Session)
| TCleanupTransport (idx : nat) (sessionId : string) (sess : Session)
| TCleanupServer (idx : nat) (sessionId : string) (sess : Session)
| TCleanupClient (c : ClientId)
| TStdioConnect (sv : ServerId).

Inductive TimerCb := CleanupSessionCb.

(** Calls into the SDK and the process, newest first in the trace. *)
Inductive Effect :=
| Spawn (c : ClientId)
| ClientListTools (c : ClientId)
| ClientCallTool (c : ClientId) (name : string)
| ClientClose (c : ClientId)
| ServerConnect (sv : ServerId) (tr : TransportId)
| TransportHandle (tr : TransportId) (r : ResId)
| TransportClose (tr : TransportId)
| ServerClose (sv : ServerId)
| RpcReply (rpc : RpcId) (o : Outcome)
| ConsoleLog (msg : string)
| ConsoleError (msg : string)
| Exit (code : nat).

Inductive Phase :=
| Constructed
| Started
| Exited (code : nat).

Inductive Signal := SIGINT | SIGTERM.

Record State := {
  chromeClient : option ClientId;
  activeSessions : JsMap.t Session;
  clients : list ClientStatus;
  servers : list ServerObj;
  transports : list TransportKind;
  responses : list Response;
  tasks : list Task;
  timers : list (nat * TimerCb);
  listening : bool;
  phase : Phase;
  trace : list Effect
}.

(** The state after [new ChromeProxyServer()]. *)
Definition init : State := {|
  chromeClient := None;
  activeSessions := JsMap.empty;
  clients := [];
  servers := [];
  transports := [];
  responses := [];
  tasks := [];
  timers := [];
  listening := false;
  phase := Constructed;
  trace := []
|}.

(** ** Field updates *)

Definition set_chromeClient (v : option ClientId) (s : State) : State :=
  {| chromeClient := v; activeSessions := activeSessions s;
     clients := clients s; servers := servers s; transports := transports s;
     responses := responses s; tasks := tasks s; timers := timers s;
     listening := listening s; phase := phase s; trace := trace s |}.

Definition set_activeSessions (v : JsMap.t Session) (s : State) : State :=
  {| chromeClient := chromeClient s; activeSessions := v;
     clients := clients s; servers := servers s; transports := transports s;
     responses := responses s; tasks := tasks s; timers := timers s;
     listening := listening s; phase := phase s; trace := trace s |}.

Definition set_clients (v : list ClientStatus) (s : State) : State :=
  {| chromeClient := chromeClient s; activeSessions := activeSessions s;
     clients := v; servers := servers s; transports := transports s;
     responses := responses s; tasks := tasks s; timers := timers s;
     listening := listening s; phase := phase s; trace := trace s |}.

Definition set_servers (v : list ServerObj) (s : State) : State :=
  {| chromeClient := chromeClient s; activeSessions := activeSessions s;
     clients := clients s; servers := v; transports := transports s;
     responses := responses s; tasks := tasks s; timers := timers s;
     listening := listening s; phase := phase s; trace := trace s |}.

Definition set_transports (v : list TransportKind) (s : State) : State :=
  {| chromeClient := chromeClient s; activeSessions := activeSessions s;
     clients := clients s; servers := servers s; transports := v;
     responses := responses s; tasks := tasks s; timers := timers s;
     listening := listening s; phase := phase s; trace := trace s |}.

Definition set_responses (v : list Response) (s : State) : State :=
  {| chromeClient := chromeClient s; activeSessions := activeSessions s;
     clients := clients s; servers := servers s; transports := transports s;
     responses := v; tasks := tasks s; timers := timers s;
     listening := listening s; phase := phase s; trace := trace s |}.

Definition set_tasks (v : list Task) (s : State) : State :=
  {| chromeClient := chromeClient s; activeSessions := activeSessions s;
     clients := clients s; servers := servers s; transports := transports s;
     responses := responses s; tasks := v; timers := timers s;
     listening := listening s; phase := phase s; trace := trace s |}.

Definition set_timers (v : list (nat * TimerCb)) (s : State) : State :=
  {| chromeClient := chromeClient s; activeSessions := activeSessions s;
     clients := clients s; servers := servers s; transports := transports s;
     responses := responses s; tasks := tasks s; timers := v;
     listening := listening s; phase := phase s; trace := trace s |}.

Definition set_listening (v : bool) (s : State) : State :=
  {| chromeClient := chromeClient s; activeSessions := activeSessions s;
     clients := clients s; servers := servers s; transports := transports s;
     responses := responses s; tasks := tasks s; timers := timers s;
     listening := v; phase := phase s; trace := trace s |}.

Definition set_phase (v : Phase) (s : State) : State :=
  {| chromeClient := chromeClient s; activeSessions := activeSessions s;
     clients := clients s; servers := servers s; transports := transports s;
     responses := responses s; tasks := tasks s; timers := timers s;
     listening := listening s; phase := v; trace := trace s |}.

Definition set_trace (v : list Effect) (s : State) : State :=
  {| chromeClient := chromeClient s; activeSessions := activeSessions s;
     clients := clients s; servers := servers s; transports := transports s;
     responses := responses s; tasks := tasks s; timers := timers s;
     listening := listening s; phase := phase s; trace := v |}.

(** ** Primitive operations *)

Definition emit (e : Effect) (s : State) : State :=
  set_trace (e :: trace s) s.

Definition console_log (msg : string) : State -> State :=
  emit (ConsoleLog msg).

Definition console_error (msg : string) : State -> State :=
  emit (ConsoleError msg).

(** Suspend at an [await]: the continuation joins the pool. *)
Definition suspend (t : Task) (s : State) : State :=
  set_tasks (tasks s ++ [t]) s.

Fixpoint remove_nth {A : Type} (i : nat) (l : list A) : list A :=
  match l, i with
  | [], _ => []
  | _ :: l', 0 => l'
  | x :: l', S i' => x :: remove_nth i' l'
  end.

Fixpoint update_nth {A : Type} (i : nat) (f : A -> A) (l : list A) : list A :=
  match l, i with
  | [], _ => []
  | x :: l', 0 => f x :: l'
  | x :: l', S i' => x :: update_nth i' f l'
  end.

Definition setTimeout (cb : TimerCb) (delay : nat) (s : State) : State :=
  set_timers (timers s ++ [(delay, cb)]) s.

(** [process.exit(code)]: nothing runs afterwards. *)
Definition process_exit (code : nat) (s : State) : State :=
  set_phase (Exited code) (emit (Exit code) s).

Definition ClientStatus_eqb (a b : ClientStatus) : bool :=
  match a, b with
  | Connecting, Connecting | Ready, Ready | ConnectFailed, ConnectFailed
  | Dropped, Dropped | Closed, Closed => true
  | _, _ => false
  end.

(** The SDK moves client [c] to status [to] if it is in status [from]. *)
Definition client_transition (c : ClientId) (from to : ClientStatus)
    (s : State) : State :=
  set_clients
    (update_nth c (fun st => if ClientStatus_eqb st from then to else st)
       (clients s)) s.

(** [client.close()] ends whatever connection the client has. *)
Definition client_closed (c : ClientId) (s : State) : State :=
  set_clients (update_nth c (fun _ => Closed) (clients s)) s.

Definition update_response (r : ResId) (f : Response -> Response)
    (s : State) : State :=
  set_responses (update_nth r f (responses s)) s.

(** [res.setHeader(name, value)] *)
Definition setHeader (name value : string) (res : Response) : Response :=
  {| requestId := requestId res;
     headers := headers res ++ [(name, value)];
     headersSent := headersSent res; statusCode := statusCode res;
     body := body res; ended := ended res; listeners := listeners res |}.

(** [res.writeHead(status, hs)] *)
Definition writeHead (status : nat) (hs : list (string * string))
    (res : Response) : Response :=
  {| requestId := requestId res;
     headers := headers res ++ hs;
     headersSent := true; statusCode := Some status;
     body := body res; ended := ended res; listeners := listeners res |}.

(** [res.end(b)] *)
Definition end_ (b : Body) (res : Response) : Response :=
  {| requestId := requestId res; headers := headers res;
     headersSent := headersSent res; statusCode := statusCode res;
     body := b; ended := true; listeners := listeners res |}.

(** [res.on(ev, f)] *)
Definition on_ (ev : ResEvent) (f : Listener) (res : Response) : Response :=
  {| requestId := requestId res; headers := headers res;
     headersSent := headersSent res; statusCode := statusCode res;
     body := body res; ended := ended res;
     listeners := listeners res ++ [(ev, f)] |}.

Definition new_response (token : string) : Response :=
  {| requestId := token; headers := []; headersSent := false;
     statusCode := None; body := NoBody; ended := false; listeners := [] |}.

Definition ResEvent_eqb (a b : ResEvent) : bool :=
  match a, b with
  | Close, Close | Finish, Finish | Error, Error => true
  | _, _ => false
  end.

Definition RpcMethod_eqb (a b : RpcMethod) : bool :=
  match a, b with
  | ListTools, ListTools | CallTool, CallTool => true
  | _, _ => false
  end.

(** [error instanceof Error ? error.message : String(error)] *)
Definition error_message (e : Thrown) : string :=
  match e with
  | ErrorObj m => m
  | NonError shown => shown
  end.

(** [v !== null] and the truthiness of [v], for a field of type
    [Client | null]. *)
Definition neq_null (v : option ClientId) : bool :=
  match v with
  | None => false
  | Some _ => true
  end.

Definition truthy (v : option ClientId) : bool :=
  match v with
  | Some _ => true
  | None => false
  end.

(** ** The program *)

Inductive Completion := Returned | Awaiting.

Inductive Event :=
| EvMain (useStdio : bool)
| EvSignal (sg : Signal)
| EvRequest (token method url : string)
| EvResponse (r : ResId) (ev : ResEvent)
| EvTimer (i : nat)
| EvSettle (i : nat) (o : Outcome)
| EvRpc (sv : ServerId) (m : RpcMethod) (rpc : RpcId) (name : string)
| EvTransportWriteHead (r : ResId) (status : nat)
| EvChildExit (c : ClientId)
| EvListenError (code : string).

Section Bridge.

(** [process.env.CHROME_URL || "http://localhost:9222"], read once. *)
Variable CHROME_URL : string.

Definition sharedSessionId : string := "http-shared".

(** [createServerForSession(sessionId)], with [setupHandlers(server)]
    registering the two request handlers.  ([server.onerror] only logs.) *)
Definition createServerForSession (sessionId : string) (s : State)
    : ServerId * State :=
  let s1 :=
    console_log
      ("[Session] Creating new MCP server for session: " ++ sessionId) s in
  let sv := length (servers s1) in
  (sv, set_servers
         (servers s1 ++
            [{| sv_session := sessionId;
                sv_handlers := [ListTools; CallTool] |}]) s1).

(** [initChromeConnection()], up to its [await]: the guard, the
    construction of the client, stored in the field at once, and the call of
    [connect], which starts the child process. *)
Definition initChromeConnection (k : Caller) (s : State)
    : Completion * State :=
  match chromeClient s with
  | Some _ => (Returned, s)
  | None =>
      let s1 :=
        console_log "[Chrome] Spawning chrome-devtools-mcp process..." s in
      let c := length (clients s1) in
      let s2 := set_clients (clients s1 ++ [Connecting]) s1 in
      let s3 := set_chromeClient (Some c) s2 in
      (Awaiting, suspend (TInitConnect c k) (emit (Spawn c) s3))
  end.

(** [startHTTP] from [http.createServer] on: the server listens.  (The
    banner that the ['listening'] callback prints is not part of the
    trace.) *)
Definition startHTTP_listen (s : State) : State :=
  set_listening true s.

(** The [catch] around the eager initialisation in [startHTTP]. *)
Definition startHTTP_catch (s : State) : State :=
  let s1 :=
    console_error
      "[Setup] WARNING: Failed to pre-initialize Chrome connection:" s in
  let s2 :=
    console_error
      "[Setup] Tools will be initialized on first request instead" s1 in
  startHTTP_listen s2.

(** The [catch] of the two request handlers: log and rethrow, which the
    SDK turns into the reply of the call. *)
Definition listTools_catch (rpc : RpcId) (e : Thrown) (s : State) : State :=
  emit (RpcReply rpc (Rejected e))
    (console_error "[Error] ListTools failed:" s).

Definition callTool_catch (rpc : RpcId) (name : string) (e : Thrown)
    (s : State) : State :=
  emit (RpcReply rpc (Rejected e))
    (console_error ("[Error] CallTool " ++ name ++ " failed:") s).

(** What the caller does once [await this.initChromeConnection()] is
    through. *)
Definition after_init (k : Caller) (s : State) : State :=
  match k with
  | FromStartHTTP =>
      let s1 :=
        console_log
          "[Setup] Chrome connection pre-initialized successfully" s in
      match chromeClient s1 with
      | Some c => suspend TStartupListTools (emit (ClientListTools c) s1)
      | None => startHTTP_catch s1
      end
  | FromListTools rpc =>
      match chromeClient s with
      | None =>
          listTools_catch rpc (ErrorObj "Chrome client not initialized") s
      | Some c => suspend (TListTools rpc) (emit (ClientListTools c) s)
      end
  | FromCallTool rpc name =>
      match chromeClient s with
      | None =>
          callTool_catch rpc name
            (ErrorObj "Chrome client not initialized") s
      | Some c =>
          suspend (TCallTool rpc name) (emit (ClientCallTool c name) s)
      end
  end.

(** What the caller does when [initChromeConnection] has thrown [e]. *)
Definition init_failed (k : Caller) (e : Thrown) (s : State) : State :=
  match k with
  | FromStartHTTP => startHTTP_catch s
  | FromListTools rpc => listTools_catch rpc e s
  | FromCallTool rpc name => callTool_catch rpc name e s
  end.

Definition await_init (k : Caller) (s : State) : State :=
  match initChromeConnection k s with
  | (Returned, s') => after_init k s'
  | (Awaiting, s') => s'
  end.

(** The two request handlers of [setupHandlers]. *)
Definition handler (m : RpcMethod) (rpc : RpcId) (name : string)
    (s : State) : State :=
  match m with
  | ListTools =>
      await_init (FromListTools rpc)
        (console_log
           "[Request] ListTools - Forwarding to chrome-devtools-mcp..." s)
  | CallTool =>
      await_init (FromCallTool rpc name)
        (console_log ("[Request] CallTool - " ++ name) s)
  end.

(** [startHTTP()] and [startStdio()] *)
Definition startHTTP (s : State) : State :=
  await_init FromStartHTTP
    (console_log "[Setup] Pre-initializing Chrome connection..." s).

Definition startStdio (s : State) : State :=
  let s1 := console_log "[Server] Starting in stdio mode..." s in
  let (sv, s2) := createServerForSession "stdio" s1 in
  let tr := length (transports s2) in
  let s3 := set_transports (transports s2 ++ [StdioServer]) s2 in
  suspend (TStdioConnect sv) (emit (ServerConnect sv tr) s3).

Definition main (useStdio : bool) (s : State) : State :=
  let s1 := set_phase Started s in
  if useStdio then startStdio s1 else startHTTP s1.

(** [cleanup()], from the iterator position [idx] of the loop over
    [this.activeSessions.entries()] to the next [await]. *)
Definition cleanup_done (s : State) : State :=
  process_exit 0 (console_log "[Shutdown] Cleanup completed" s).

Definition cleanup_client (s : State) : State :=
  let s1 := set_activeSessions (JsMap.clear (activeSessions s)) s in
  match chromeClient s1 with
  | Some c =>
      suspend (TCleanupClient c) (client_closed c (emit (ClientClose c) s1))
  | None => cleanup_done s1
  end.

Definition cleanup_sessions (idx : nat) (s : State) : State :=
  match JsMap.next idx (activeSessions s) with
  | Some (idx', (sessionId, session)) =>
      let s1 :=
        console_log ("[Shutdown] Closing session: " ++ sessionId) s in
      suspend (TCleanupTransport idx' sessionId session)
        (emit (TransportClose (transport session)) s1)
  | None => cleanup_client s
  end.

Definition cleanup (s : State) : State := cleanup_sessions 0 s.

(** The two signal handlers installed by [setupErrorHandling]. *)
Definition signal_message (sg : Signal) : string :=
  match sg with
  | SIGINT => "[Shutdown] Received SIGINT, shutting down gracefully..."
  | SIGTERM => "[Shutdown] Received SIGTERM, shutting down gracefully..."
  end.

Definition on_signal (sg : Signal) (s : State) : State :=
  cleanup (console_log (signal_message sg) s).

(** The [catch] of the [/mcp] branch. *)
Definition mcp_catch (r : ResId) (e : Thrown) (s : State) : State :=
  update_response r
    (fun res =>
       if headersSent res then res
       else
         end_
           (Json [("error", JString "Internal server error");
                  ("message", JString (error_message e));
                  ("requestId", JString (requestId res))])
           (writeHead 500
              [("Content-Type", "application/json");
               ("Access-Control-Allow-Origin", "*")] res))
    (console_error "ERROR:" s).

(** The [/mcp] branch once it has its session: the listeners of a [GET],
    then [await session.transport.handleRequest(req, res)]. *)
Definition mcp_forward (r : ResId) (method : string) (session : Session)
    (s : State) : State :=
  let s1 :=
    if String.eqb method "GET"
    then
      update_response r
        (fun res =>
           on_ Finish CleanupSession (on_ Close CleanupSession res)) s
    else s in
  let s2 := console_log "Forwarding to transport" s1 in
  suspend (TMcpHandle r) (emit (TransportHandle (transport session) r) s2).

(** The body of the health check. *)
Definition health_body (s : State) : list (string * JsonValue) :=
  [("status", JString "ok");
   ("chrome_url", JString CHROME_URL);
   ("chrome_connected", JBool (neq_null (chromeClient s)));
   ("tools_available", JBool (if truthy (chromeClient s) then true else false))].

(** The request listener given to [http.createServer]; [r] is the new
    response object. *)
Definition on_request (token method url : string) (s : State) : State :=
  let r := length (responses s) in
  let res0 :=
    on_ Error LogResponseError
      (on_ Close LogResponseClosed (new_response token)) in
  let s0 :=
    set_responses (responses s ++ [res0])
      (console_log (method ++ " " ++ url) s) in
  if String.eqb url "/health" then
    update_response r
      (fun res =>
         end_ (Json (health_body s0))
           (writeHead 200
              [("Content-Type", "application/json");
               ("Access-Control-Allow-Origin", "*")] res)) s0
  else if String.eqb url "/mcp" || String.prefix "/mcp" url then
    let s1 :=
      update_response r
        (fun res =>
           setHeader "Access-Control-Allow-Headers" "Content-Type"
             (setHeader "Access-Control-Allow-Methods" "GET, POST, OPTIONS"
                (setHeader "Access-Control-Allow-Origin" "*" res)))
        (console_log ("MCP request: " ++ method ++ " " ++ url) s0) in
    if String.eqb method "OPTIONS" then
      update_response r (fun res => end_ NoBody (writeHead 200 [] res))
        (console_log "OPTIONS preflight" s1)
    else
      match JsMap.get sharedSessionId (activeSessions s1) with
      | Some session => mcp_forward r method session s1
      | None =>
          let s2 := console_log "Creating new MCP transport+server" s1 in
          let tr := length (transports s2) in
          let s3 := set_transports (transports s2 ++ [StreamableHTTP]) s2 in
          let (sv, s4) := createServerForSession sharedSessionId s3 in
          suspend (TMcpConnect r method sv tr) (emit (ServerConnect sv tr) s4)
      end
  else
    update_response r
      (fun res =>
         end_
           (Text "Not Found. Use /mcp for MCP endpoint or /health for status")
           (writeHead 404 [("Content-Type", "text/plain")] res)) s0.

(** [cleanupSession], the listener of ['close'] and ['finish']. *)
Definition cleanupSession (s : State) : State :=
  setTimeout CleanupSessionCb 100
    (console_log "SSE disconnected, will recreate server for next client" s).

(** The callback that [cleanupSession] gives to [setTimeout], up to its
    first [await]. *)
Definition cleanupSession_timeout (s : State) : State :=
  match JsMap.get sharedSessionId (activeSessions s) with
  | Some sess =>
      let s1 := console_log "Cleaning up session after SSE disconnect" s in
      let s2 :=
        set_activeSessions
          (JsMap.delete sharedSessionId (activeSessions s1)) s1 in
      suspend (TSessionCloseTransport sess)
        (emit (TransportClose (transport sess)) s2)
  | None => s
  end.

Definition run_timer (cb : TimerCb) (s : State) : State :=
  match cb with
  | CleanupSessionCb => cleanupSession_timeout s
  end.

Definition run_listener (f : Listener) (s : State) : State :=
  match f with
  | LogResponseClosed => console_log "Response connection closed" s
  | LogResponseError => console_error "Response error:" s
  | CleanupSession => cleanupSession s
  end.

(** The listeners of an event run in the order of their registration. *)
Definition fire (ev : ResEvent) (ls : list (ResEvent * Listener))
    (s : State) : State :=
  fold_left
    (fun s' l => if ResEvent_eqb (fst l) ev then run_listener (snd l) s' else s')
    ls s.

(** The continuation [t] after its promise has settled with [o]. *)
Definition resume (t : Task) (o : Outcome) (s : State) : State :=
  match t, o with
  | TInitConnect c k, Resolved =>
      after_init k
        (console_log "[Chrome] Successfully connected to chrome-devtools-mcp"
           (client_transition c Connecting Ready s))
  | TInitConnect c k, Rejected e =>
      init_failed k e
        (console_error "[Chrome] Failed to connect:"
           (client_transition c Connecting ConnectFailed s))
  | TStartupListTools, Resolved =>
      startHTTP_listen
        (console_log "[Setup] Sample tools:"
           (console_log
              "[Setup] SUCCESS! Chrome client has tools available" s))
  | TStartupListTools, Rejected _ => startHTTP_catch s
  | TListTools rpc, Resolved =>
      emit (RpcReply rpc Resolved)
        (console_log "[Response] ListTools - tools available" s)
  | TListTools rpc, Rejected e => listTools_catch rpc e s
  | TCallTool rpc name, Resolved =>
      emit (RpcReply rpc Resolved)
        (console_log ("[Response] CallTool - " ++ name ++ " completed") s)
  | TCallTool rpc name, Rejected e => callTool_catch rpc name e s
  | TMcpConnect r method sv tr, Resolved =>
      let session := {| server := sv; transport := tr |} in
      mcp_forward r method session
        (set_activeSessions
           (JsMap.set sharedSessionId session (activeSessions s)) s)
  | TMcpConnect r _ _ _, Rejected e => mcp_catch r e s
  | TMcpHandle r, Resolved => console_log "Request handled" s
  | TMcpHandle r, Rejected e => mcp_catch r e s
  | TSessionCloseTransport sess, Resolved =>
      suspend (TSessionCloseServer sess) (emit (ServerClose (server sess)) s)
  | TSessionCloseTransport _, Rejected _ =>
      console_error "Error cleaning up session:" s
  | TSessionCloseServer _, Resolved => s
  | TSessionCloseServer _, Rejected _ =>
      console_error "Error cleaning up session:" s
  | TCleanupTransport idx sessionId session, Resolved =>
      suspend (TCleanupServer idx sessionId session)
        (emit (ServerClose (server session)) s)
  | TCleanupTransport idx sessionId _, Rejected _ =>
      cleanup_sessions idx
        (console_error
           ("[Shutdown] Error closing session " ++ sessionId ++ ":") s)
  | TCleanupServer idx _ _, Resolved => cleanup_sessions idx s
  | TCleanupServer idx sessionId _, Rejected _ =>
      cleanup_sessions idx
        (console_error
           ("[Shutdown] Error closing session " ++ sessionId ++ ":") s)
  | TCleanupClient _, Resolved => cleanup_done (set_chromeClient None s)
  | TCleanupClient _, Rejected _ =>
      process_exit 0 (console_error "[Shutdown] Error during cleanup:" s)
  | TStdioConnect _, Resolved => console_log "[Server] Connected via stdio" s
  | TStdioConnect _, Rejected _ =>
      process_exit 1 (console_error "[Fatal] Failed to start server:" s)
  end.

(** The ['error'] listener of the HTTP server. *)
Definition on_listen_error (code : string) (s : State) : State :=
  process_exit 1
    (if String.eqb code "EADDRINUSE"
     then
       console_error
         "[Error] Please close the other application or set a different PORT environment variable."
         (console_error "[Error] Port is already in use!" s)
     else console_error "[Error] Server error:" s).

(** Has response [r] been handed to a transport? *)
Definition handed_over (r : ResId) (s : State) : bool :=
  existsb
    (fun e =>
       match e with
       | TransportHandle _ r' => Nat.eqb r r'
       | _ => false
       end) (trace s).

(** The handler that the event loop runs for [ev]; [None] when the event
    cannot occur in [s]. *)
Definition dispatch (s : State) (ev : Event) : option State :=
  match ev with
  | EvMain useStdio =>
      match phase s with
      | Constructed => Some (main useStdio s)
      | _ => None
      end
  | EvSignal sg => Some (on_signal sg s)
  | EvRequest token method url =>
      if listening s then Some (on_request token method url s) else None
  | EvResponse r ev =>
      match nth_error (responses s) r with
      | Some res => Some (fire ev (listeners res) s)
      | None => None
      end
  | EvTimer i =>
      match nth_error (timers s) i with
      | Some (_, cb) =>
          Some (run_timer cb (set_timers (remove_nth i (timers s)) s))
      | None => None
      end
  | EvSettle i o =>
      match nth_error (tasks s) i with
      | Some t => Some (resume t o (set_tasks (remove_nth i (tasks s)) s))
      | None => None
      end
  | EvRpc sv m rpc name =>
      match nth_error (servers s) sv with
      | Some obj =>
          if existsb (RpcMethod_eqb m) (sv_handlers obj)
          then Some (handler m rpc name s)
          else None
      | None => None
      end
  | EvTransportWriteHead r status =>
      match nth_error (responses s) r with
      | Some res =>
          if handed_over r s && negb (headersSent res)
          then Some (update_response r (writeHead status []) s)
          else None
      | None => None
      end
  | EvChildExit c =>
      match nth_error (clients s) c with
      | Some Ready => Some (client_transition c Ready Dropped s)
      | _ => None
      end
  | EvListenError code =>
      if listening s then Some (on_listen_error code s) else None
  end.

(** One turn of the event loop: nothing runs once the process has
    exited. *)
Definition step (s : State) (ev : Event) : option State :=
  match phase s with
  | Exited _ => None
  | _ => dispatch s ev
  end.

(** A run from [s] through the events [evs]. *)
Fixpoint run (s : State) (evs : list Event) : option State :=
  match evs with
  | [] => Some s
  | ev :: evs' =>
      match step s ev with
      | Some s' => run s' evs'
      | None => None
      end
  end.

Inductive reachable : State -> Prop :=
| reachable_init : reachable init
| reachable_step s ev s' :
    reachable s -> step s ev = Some s' -> reachable s'.

End Bridge.

(** * Vocabulary of the properties *)

Definition is_spawn (e : Effect) : bool :=
  match e with
  | Spawn _ => true
  | _ => false
  end.

(** How many times a child process was started. *)
Definition spawn_count (tr : list Effect) : nat :=
  length (filter is_spawn tr).

Definition running (s : State) : Prop :=
  match phase s with
  | Exited _ => False
  | _ => True
  end.

(** A client whose handshake with the child completed and whose connection
    is still up. *)
Definition live_connection (s : State) : Prop :=
  exists c, nth_error (clients s) c = Some Ready.

(** [s'] has the field [chromeClient], the clients and the spawns of [s]. *)
Definition same_child (s s' : State) : Prop :=
  chromeClient s' = chromeClient s /\
  length (clients s') = length (clients s) /\
  spawn_count (trace s') = spawn_count (trace s).

(** The invariant of the child connection. *)
Record single_child (s : State) : Prop := {
  sc_spawned : spawn_count (trace s) = length (clients s);
  sc_one : length (clients s) <= 1;
  sc_absent : running s -> chromeClient s = None -> clients s = [];
  sc_bound : forall c, chromeClient s = Some c -> c < length (clients s)
}.

(** The keys of [activeSessions] are distinct. *)
Definition registry_wf (s : State) : Prop :=
  JsMap.wf (activeSessions s).

Definition keeps_registry (s s' : State) : Prop :=
  registry_wf s -> registry_wf s'.

(** A field of a serialised object. *)
Fixpoint field (name : string) (fields : list (string * JsonValue))
    : option JsonValue :=
  match fields with
  | [] => None
  | (n, v) :: fields' => if String.eqb name n then Some v else field name fields'
  end.

(** The default of [CHROME_URL]. *)
Definition default_url : string := "http://localhost:9222".

(** Three calls arrive on the stdio server before the first handshake
    has completed. *)
Definition concurrent_calls : list Event :=
  [EvMain true; EvSettle 0 Resolved; EvRpc 0 ListTools 1 "";
   EvRpc 0 CallTool 2 "click"; EvRpc 0 ListTools 3 ""].

(** The response that the health branch writes in state [s]. *)
Definition health_response (CHROME_URL token : string) (s : State)
    : Response :=
  end_ (Json (health_body CHROME_URL s))
    (writeHead 200
       [("Content-Type", "application/json");
        ("Access-Control-Allow-Origin", "*")]
       (on_ Error LogResponseError
          (on_ Close LogResponseClosed (new_response token)))).

Definition is_console (e : Effect) : bool :=
  match e with
  | ConsoleLog _ | ConsoleError _ => true
  | _ => false
  end.

(** The calls into the SDK and the process, without the console output. *)
Definition calls (tr : list Effect) : list Effect :=
  filter (fun e => negb (is_console e)) tr.

Definition json_field (name : string) (res : Response) : option JsonValue :=
  match body res with
  | Json fields => field name fields
  | _ => None
  end.

(** The start-up of the HTTP bridge with a child that connects. *)
Definition started_up : list Event :=
  [EvMain false; EvSettle 0 Resolved; EvSettle 0 Resolved].

(** The start-up with a handshake that fails, and a start-up after which
    the child process goes away. *)
Definition startup_failed : list Event :=
  [EvMain false; EvSettle 0 (Rejected (ErrorObj "spawn npx ENOENT"))].

Definition child_gone : list Event :=
  [EvMain false; EvSettle 0 Resolved; EvSettle 0 Resolved; EvChildExit 0].

(** After the run [evs], the health check answers [chrome_connected: true]
    although no live connection exists. *)
Definition connected_without_connection (evs : list Event) : Prop :=
  exists s s' res,
    run default_url init evs = Some s /\
    step default_url s (EvRequest "a1b2c3d4" "GET" "/health") = Some s' /\
    nth_error (responses s') 0 = Some res /\
    statusCode res = Some 200 /\
    json_field "chrome_connected" res = Some (JBool true) /\
    ~ live_connection s.

(** The listeners on the response of a [GET] on [/mcp]. *)
Definition stream_listeners : list (ResEvent * Listener) :=
  [(Close, LogResponseClosed); (Error, LogResponseError);
   (Close, CleanupSession); (Finish, CleanupSession)].

(** A stream is opened on the running bridge. *)
Definition stream_opened : list Event :=
  [EvMain false; EvSettle 0 Resolved; EvSettle 0 Resolved;
   EvRequest "a1b2c3d4" "GET" "/mcp"; EvSettle 0 Resolved].

Definition stream_state : State :=
  Eval vm_compute in
    match run default_url init stream_opened with
    | Some s => s
    | None => init
    end.

(** The response that the [catch] of the [/mcp] branch writes. *)
Definition error_response (e : Thrown) (res : Response) : Response :=
  end_
    (Json [("error", JString "Internal server error");
           ("message", JString (error_message e));
           ("requestId", JString (requestId res))])
    (writeHead 500
       [("Content-Type", "application/json");
        ("Access-Control-Allow-Origin", "*")] res).

(** A [POST] on the running bridge has reached the transport. *)
Definition post_received : list Event :=
  [EvMain false; EvSettle 0 Resolved; EvSettle 0 Resolved;
   EvRequest "a1b2c3d4" "POST" "/mcp"; EvSettle 0 Resolved].

Definition post_state : State :=
  Eval vm_compute in
    match run default_url init post_received with
    | Some s => s
    | None => init
    end.

(** How the SDK settles the [close] calls of a shutdown. *)
Record CloseOutcomes := {
  transport_close : TransportId -> Outcome;
  server_close : ServerId -> Outcome;
  client_close : ClientId -> Outcome
}.

(** The settlements that [cleanup] awaits for one session; [n] is the
    position of its continuation in the pool. *)
Definition session_settlements (oc : CloseOutcomes) (n : nat)
    (e : string * Session) : list Event :=
  match transport_close oc (transport (snd e)) with
  | Resolved =>
      [EvSettle n Resolved; EvSettle n (server_close oc (server (snd e)))]
  | Rejected err => [EvSettle n (Rejected err)]
  end.

(** A shutdown with nothing else in between: the signal, then the
    settlements of the [close] calls in the order [cleanup] makes them. *)
Definition shutdown_events (sg : Signal) (oc : CloseOutcomes) (s : State)
    : list Event :=
  let n := length (tasks s) in
  EvSignal sg
    :: flat_map (session_settlements oc n) (JsMap.entries (activeSessions s))
    ++ match chromeClient s with
       | Some c => [EvSettle n (client_close oc c)]
       | None => []
       end.

(** What [cleanup] does for one session, oldest first. *)
Definition session_effects (oc : CloseOutcomes) (e : string * Session)
    : list Effect :=
  let failed :=
    ConsoleError ("[Shutdown] Error closing session " ++ fst e ++ ":") in
  [ConsoleLog ("[Shutdown] Closing session: " ++ fst e);
   TransportClose (transport (snd e))]
  ++ match transport_close oc (transport (snd e)) with
     | Resolved =>
         ServerClose (server (snd e))
           :: match server_close oc (server (snd e)) with
              | Resolved => []
              | Rejected _ => [failed]
              end
     | Rejected _ => [failed]
     end.

(** What [cleanup] does for the child connection, oldest first. *)
Definition client_effects (oc : CloseOutcomes) (c : option ClientId)
    : list Effect :=
  match c with
  | Some c =>
      ClientClose c
        :: match client_close oc c with
           | Resolved => [ConsoleLog "[Shutdown] Cleanup completed"]
           | Rejected _ => [ConsoleError "[Shutdown] Error during cleanup:"]
           end
  | None => [ConsoleLog "[Shutdown] Cleanup completed"]
  end.

(** The effects of a whole shutdown, oldest first. *)
Definition shutdown_effects (sg : Signal) (oc : CloseOutcomes) (s : State)
    : list Effect :=
  [ConsoleLog (signal_message sg)]
  ++ flat_map (session_effects oc) (JsMap.entries (activeSessions s))
  ++ client_effects oc (chromeClient s)
  ++ [Exit 0].

(** The [close] of every transport rejects; the other [close] calls
    resolve. *)
Definition transport_close_fails : CloseOutcomes :=
  {| transport_close := fun _ => Rejected (ErrorObj "write after end");
     server_close := fun _ => Resolved;
     client_close := fun _ => Resolved |}.

(** * Vocabulary of the further properties *)

(** The continuations of [startHTTP] before the server listens. *)
Definition startup_task (t : Task) : bool :=
  match t with
  | TInitConnect _ FromStartHTTP | TStartupListTools => true
  | _ => false
  end.

(** A bridge without a client has not begun to listen and is not in the
    middle of [startHTTP]. *)
Definition attempt_first (s : State) : Prop :=
  running s -> chromeClient s = None ->
  listening s = false /\ Forall (fun t => startup_task t = false) (tasks s).

(** The state after a start-up whose handshake failed. *)
Definition failed_state : State :=
  Eval vm_compute in
    match run default_url init startup_failed with
    | Some s => s
    | None => init
    end.

(** [l] is the older part of [l']. *)
Definition older {A : Type} (l l' : list A) : Prop :=
  exists new, l' = new ++ l.

(** [l'] is [l] with more objects at its end. *)
Definition extended {A : Type} (l l' : list A) : Prop :=
  exists new, l' = l ++ new.

(** From [s] to [s'] the trace and the stores of servers and transports
    have only grown. *)
Definition grows (s s' : State) : Prop :=
  older (trace s) (trace s') /\
  extended (servers s) (servers s') /\
  extended (transports s) (transports s').

(** The server that [createServerForSession] makes for the shared
    session. *)
Definition shared_server : ServerObj :=
  {| sv_session := sharedSessionId; sv_handlers := [ListTools; CallTool] |}.

(** The pair [v] consists of a server made for the shared session and of a
    streamable HTTP transport, and [server.connect(transport)] has been
    called on it. *)
Definition connected_pair (s : State) (v : Session) : Prop :=
  In (ServerConnect (server v) (transport v)) (trace s) /\
  nth_error (servers s) (server v) = Some shared_server /\
  nth_error (transports s) (transport v) = Some StreamableHTTP.

(** The invariant of the registry and of the requests that are about to
    store a session. *)
Record registry_inv (s : State) : Prop := {
  ri_keys :
    forall k v, In (k, v) (JsMap.entries (activeSessions s)) ->
                k = sharedSessionId;
  ri_pairs :
    forall k v, In (k, v) (JsMap.entries (activeSessions s)) ->
                connected_pair s v;
  ri_pending :
    forall r m sv tr, In (TMcpConnect r m sv tr) (tasks s) ->
                      connected_pair s {| server := sv; transport := tr |};
  ri_listening :
    JsMap.entries (activeSessions s) <> [] -> listening s = true;
  ri_pending_listening :
    forall r m sv tr, In (TMcpConnect r m sv tr) (tasks s) ->
                      listening s = true
}.

(** From [s] to [s'] the registry is the same or has been emptied, no
    request has begun to create a session, and the server still listens if
    it did. *)
Definition quiet (s s' : State) : Prop :=
  (activeSessions s' = activeSessions s \/
   JsMap.entries (activeSessions s') = []) /\
  (forall r m sv tr,
     In (TMcpConnect r m sv tr) (tasks s') ->
     In (TMcpConnect r m sv tr) (tasks s)) /\
  (listening s = true -> listening s' = true).

Definition is_exit (e : Effect) : bool :=
  match e with
  | Exit _ => true
  | _ => false
  end.

(** A termination signal has been received. *)
Definition signalled (tr : list Effect) : Prop :=
  exists sg, In (ConsoleLog (signal_message sg)) tr.

(** The start of the bridge has failed: [startStdio] has thrown, or the
    HTTP server has reported an error. *)
Definition start_failed (tr : list Effect) : Prop :=
  In (ConsoleError "[Fatal] Failed to start server:") tr \/
  In (ConsoleError "[Error] Server error:") tr \/
  In (ConsoleError "[Error] Port is already in use!") tr.

(** The continuations of [cleanup]. *)
Definition cleanup_task (t : Task) : bool :=
  match t with
  | TCleanupTransport _ _ _ | TCleanupServer _ _ _ | TCleanupClient _ => true
  | _ => false
  end.

(** [l'] is [l] with newer effects, none of them an exit. *)
Definition older_no_exit (l l' : list Effect) : Prop :=
  exists new, l' = new ++ l /\ Forall (fun e => is_exit e = false) new.

(** From [s] to [s'] the process has not exited and [cleanup] has not been
    started or continued. *)
Definition calm (s s' : State) : Prop :=
  (running s -> running s') /\
  older_no_exit (trace s) (trace s') /\
  (forall t, In t (tasks s') -> cleanup_task t = true -> In t (tasks s)).

(** The invariant of the exit of the process. *)
Record exit_inv (s : State) : Prop := {
  ei_cleanup :
    forall t, In t (tasks s) -> cleanup_task t = true -> signalled (trace s);
  ei_running :
    running s -> Forall (fun e => is_exit e = false) (trace s);
  ei_exited :
    forall c, phase s = Exited c ->
      (exists tl, trace s = Exit c :: tl /\
                  Forall (fun e => is_exit e = false) tl) /\
      ((c = 0 /\ signalled (trace s)) \/ (c = 1 /\ start_failed (trace s)))
}.

(** The HTTP server cannot bind its port after a start-up with a working
    child. *)
Definition port_in_use : list Event :=
  [EvMain false; EvSettle 0 Resolved; EvSettle 0 Resolved;
   EvListenError "EADDRINUSE"].

(** [res'] carries the reply of [res]: the same head, body and end. *)
Definition same_reply (res res' : Response) : Prop :=
  requestId res' = requestId res /\
  statusCode res' = statusCode res /\
  headers res' = headers res /\
  headersSent res' = headersSent res /\
  body res' = body res /\
  ended res' = ended res.

(** A response that has been ended has its head sent. *)
Definition well_ended (res : Response) : Prop :=
  ended res = true -> headersSent res = true.

(** From [l] to [l'] every response is still there, with its reply if its
    head had been sent; responses stay well ended and the new ones are. *)
Definition served (l l' : list Response) : Prop :=
  (forall r res,
     nth_error l r = Some res ->
     exists res',
       nth_error l' r = Some res' /\
       (headersSent res = true -> same_reply res res') /\
       (well_ended res -> well_ended res')) /\
  (forall r res',
     nth_error l' r = Some res' -> nth_error l r = None -> well_ended res').

(** The transport has sent the head of the reply to the first [POST]. *)
Definition post_answered : list Event :=
  post_received ++ [EvTransportWriteHead 0 200].

Definition answered_state : State :=
  Eval vm_compute in
    match run default_url init post_answered with
    | Some s => s
    | None => init
    end.

(** The response of a new exchange, with its two logging listeners. *)
Definition fresh_response (token : string) : Response :=
  on_ Error LogResponseError
    (on_ Close LogResponseClosed (new_response token)).

(** The answer to a request for an unknown path. *)
Definition not_found_response (token : string) : Response :=
  end_ (Text "Not Found. Use /mcp for MCP endpoint or /health for status")
    (writeHead 404 [("Content-Type", "text/plain")] (fresh_response token)).

(** The answer to a preflight request. *)
Definition preflight_response (token : string) : Response :=
  end_ NoBody
    (writeHead 200 []
       (setHeader "Access-Control-Allow-Headers" "Content-Type"
          (setHeader "Access-Control-Allow-Methods" "GET, POST, OPTIONS"
             (setHeader "Access-Control-Allow-Origin" "*"
                (fresh_response token))))).

(** The settlements of the start-up of [startHTTP]: the handshake, and if
    it resolves the listing of the tools; [n] is the position of the
    continuation in the pool. *)
Definition startup_events (n : nat) (o1 o2 : Outcome) : list Event :=
  EvMain false
    :: EvSettle n o1
    :: match o1 with
       | Resolved => [EvSettle n o2]
       | Rejected _ => []
       end.

(** The call that a handler forwards to client [c]. *)
Definition forwarded (m : RpcMethod) (c : ClientId) (name : string)
    : Effect :=
  match m with
  | ListTools => ClientListTools c
  | CallTool => ClientCallTool c name
  end.

(** The continuation of a handler while the child works on the call. *)
Definition forwarding (m : RpcMethod) (rpc : RpcId) (name : string) : Task :=
  match m with
  | ListTools => TListTools rpc
  | CallTool => TCallTool rpc name
  end.

(** A first call in a bridge without a client: the call, the settlement of
    the handshake and, if that resolves, of the forwarded call; [n] is the
    position of the continuation in the pool. *)
Definition first_call_events (n : nat) (sv : ServerId) (m : RpcMethod)
    (rpc : RpcId) (name : string) (o1 o2 : Outcome) : list Event :=
  EvRpc sv m rpc name
    :: EvSettle n o1
    :: match o1 with
       | Resolved => [EvSettle n o2]
       | Rejected _ => []
       end.

(** The bridge in stdio mode, connected to its caller. *)
Definition stdio_state : State :=
  Eval vm_compute in
    match run default_url init [EvMain true; EvSettle 0 Resolved] with
    | Some s => s
    | None => init
    end.

(** The continuations that occur in stdio mode. *)
Definition stdio_task (t : Task) : bool :=
  match t with
  | TInitConnect _ (FromListTools _) | TInitConnect _ (FromCallTool _ _)
  | TListTools _ | TCallTool _ _ | TCleanupClient _ | TStdioConnect _ => true
  | _ => false
  end.

(** The calls that belong to the HTTP side of the bridge. *)
Definition http_effect (e : Effect) : bool :=
  match e with
  | TransportHandle _ _ | TransportClose _ | ServerClose _ => true
  | _ => false
  end.

Definition stdio_server : ServerObj :=
  {| sv_session := "stdio"; sv_handlers := [ListTools; CallTool] |}.

Record stdio_inv (s : State) : Prop := {
  si_listening : listening s = false;
  si_sessions : activeSessions s = JsMap.empty;
  si_timers : timers s = [];
  si_responses : responses s = [];
  si_servers : servers s = [stdio_server];
  si_transports : transports s = [StdioServer];
  si_phase : phase s <> Constructed;
  si_tasks : Forall (fun t => stdio_task t = true) (tasks s);
  si_trace : Forall (fun e => http_effect e = false) (trace s)
}.

(** A session in stdio mode: a call that starts the child, a second call,
    the loss of the child, and a termination signal. *)
Definition stdio_session : list Event :=
  [EvMain true; EvSettle 0 Resolved;
   EvRpc 0 ListTools 1 ""; EvSettle 0 Resolved; EvSettle 0 Resolved;
   EvRpc 0 CallTool 2 "navigate_page"; EvChildExit 0;
   EvSettle 0 (Rejected (ErrorObj "Not connected"));
   EvSignal SIGTERM; EvSettle 0 Resolved].

Definition stdio_session_end : State :=
  Eval vm_compute in
    match run default_url init stdio_session with
    | Some s => s
    | None => init
    end.

(** * Properties *)

(** ** Lists and maps *)

Lemma length_update_nth {A : Type} (f : A -> A) (l : list A) (i : nat) :
  length (update_nth i f l) = length l.
Proof.
  revert i; induction l as [|x l IH]; intros [|i]; simpl; auto.
Qed.

Lemma nth_error_update_nth {A : Type} (f : A -> A) (l : list A) (i : nat) :
  nth_error (update_nth i f l) i = option_map f (nth_error l i).
Proof.
  revert i; induction l as [|x l IH]; intros [|i]; simpl; auto.
Qed.

Lemma nth_error_update_nth_ne {A : Type} (f : A -> A) (l : list A)
    (i j : nat) :
  i <> j -> nth_error (update_nth i f l) j = nth_error l j.
Proof.
  revert i j; induction l as [|x l IH]; intros [|i] [|j] Hne; simpl; auto.
  congruence.
Qed.

Lemma nth_error_snoc {A : Type} (l : list A) (x : A) :
  nth_error (l ++ [x]) (length l) = Some x.
Proof.
  induction l as [|y l IH]; simpl; auto.
Qed.

Lemma remove_nth_snoc {A : Type} (l : list A) (x : A) :
  remove_nth (length l) (l ++ [x]) = l.
Proof.
  induction l as [|y l IH]; simpl; auto. now rewrite IH.
Qed.

Lemma update_nth_snoc {A : Type} (f : A -> A) (l : list A) (x : A) :
  update_nth (length l) f (l ++ [x]) = l ++ [f x].
Proof.
  induction l as [|y l IH]; simpl; auto. now rewrite IH.
Qed.

Module JsMapFacts.
Section WithValue.
Context {V : Type}.
Implicit Types (m : JsMap.t V) (k : string) (v : V).

Lemma get_set k v m : JsMap.get k (JsMap.set k v m) = Some v.
Proof.
  induction m as [|[[k' v']|] m IH]; simpl.
  - now rewrite String.eqb_refl.
  - destruct (String.eqb k k') eqn:E; simpl; rewrite ?E, ?String.eqb_refl;
      auto.
  - exact IH.
Qed.

Lemma get_set_ne k k' v m :
  k' <> k -> JsMap.get k' (JsMap.set k v m) = JsMap.get k' m.
Proof.
  intros Hne. apply String.eqb_neq in Hne.
  induction m as [|[[k0 v0]|] m IH]; simpl.
  - now rewrite Hne.
  - destruct (String.eqb k k0) eqn:E; simpl.
    + apply String.eqb_eq in E; subst k0. now rewrite Hne.
    + now rewrite IH.
  - exact IH.
Qed.

Lemma get_delete_ne k k' m :
  k' <> k -> JsMap.get k' (JsMap.delete k m) = JsMap.get k' m.
Proof.
  intros Hne. apply String.eqb_neq in Hne.
  induction m as [|[[k0 v0]|] m IH]; simpl; auto.
  destruct (String.eqb k k0) eqn:E; simpl.
  - apply String.eqb_eq in E; subst k0. now rewrite Hne.
  - now rewrite IH.
Qed.

Lemma entries_clear m : JsMap.entries (JsMap.clear m) = [].
Proof.
  induction m as [|[e|] m IH]; simpl; auto.
Qed.

Lemma get_clear k m : JsMap.get k (JsMap.clear m) = None.
Proof.
  induction m as [|[e|] m IH]; simpl; auto.
Qed.

Lemma get_In k v m : JsMap.get k m = Some v -> In (k, v) (JsMap.entries m).
Proof.
  induction m as [|[[k' v']|] m IH]; simpl; try discriminate; auto.
  destruct (String.eqb k k') eqn:E.
  - apply String.eqb_eq in E; subst k'. intros [= ->]. now left.
  - intros H. right. auto.
Qed.

Lemma get_None_not_In k m :
  JsMap.get k m = None -> forall v, ~ In (k, v) (JsMap.entries m).
Proof.
  induction m as [|[[k' v']|] m IH]; simpl; auto.
  destruct (String.eqb k k') eqn:E; try discriminate.
  intros H v [Heq|Hin].
  - injection Heq as -> _. now rewrite String.eqb_refl in E.
  - exact (IH H v Hin).
Qed.

Lemma wf_empty : JsMap.wf (@JsMap.empty V).
Proof. constructor. Qed.

Lemma In_entries_set k v m k0 v0 :
  In (k0, v0) (JsMap.entries (JsMap.set k v m)) ->
  (k0, v0) = (k, v) \/ In (k0, v0) (JsMap.entries m).
Proof.
  induction m as [|[[k' v']|] m IH]; simpl.
  - intros [H|[]]; auto.
  - destruct (String.eqb k k') eqn:E; simpl.
    + intros [H|H]; auto.
    + intros [H|H]; auto. apply IH in H as [H|H]; auto.
  - exact IH.
Qed.

Lemma In_entries_delete k m e :
  In e (JsMap.entries (JsMap.delete k m)) -> In e (JsMap.entries m).
Proof.
  induction m as [|[[k' v']|] m IH]; simpl; auto.
  destruct (String.eqb k k'); simpl; intros H; auto.
  destruct H as [H|H]; auto.
Qed.

Lemma set_fresh k v m :
  JsMap.get k m = None ->
  JsMap.entries (JsMap.set k v m) = JsMap.entries m ++ [(k, v)].
Proof.
  induction m as [|[[k' v']|] m IH]; simpl; auto.
  destruct (String.eqb k k'); [discriminate|].
  intros H. simpl. now rewrite IH.
Qed.

Lemma keys_set k v m :
  JsMap.get k m <> None ->
  map fst (JsMap.entries (JsMap.set k v m)) = map fst (JsMap.entries m).
Proof.
  induction m as [|[[k' v']|] m IH]; simpl; try congruence; auto.
  destruct (String.eqb k k') eqn:E; simpl.
  - apply String.eqb_eq in E; subst k'. reflexivity.
  - intros H. now rewrite IH.
Qed.

Lemma wf_set k v m : JsMap.wf m -> JsMap.wf (JsMap.set k v m).
Proof.
  unfold JsMap.wf. intros Hwf.
  destruct (JsMap.get k m) as [v0|] eqn:Hget.
  - rewrite keys_set; [exact Hwf|congruence].
  - rewrite set_fresh by exact Hget.
    rewrite map_app; simpl.
    apply NoDup_app;
      [exact Hwf|constructor; [intros []|constructor]|].
    intros k0 Hin [<-|[]].
    apply in_map_iff in Hin as [[k1 v1] [Heq Hin]]; simpl in Heq; subst k1.
    exact (get_None_not_In _ _ Hget _ Hin).
Qed.

Lemma wf_delete k m : JsMap.wf m -> JsMap.wf (JsMap.delete k m).
Proof.
  unfold JsMap.wf. induction m as [|[[k' v']|] m IH]; simpl; auto.
  intros Hwf. inversion Hwf as [|? ? Hnotin Hwf']; subst.
  destruct (String.eqb k k'); simpl; auto.
  constructor; auto.
  intros Hin. apply Hnotin.
  apply in_map_iff in Hin as [[k1 v1] [Heq Hin]]; simpl in Heq; subst k1.
  apply in_map_iff. exists (k', v1). split; auto.
  eapply In_entries_delete; eauto.
Qed.

Lemma wf_clear m : JsMap.wf (JsMap.clear m).
Proof.
  unfold JsMap.wf. rewrite entries_clear. constructor.
Qed.

Lemma not_In_get_None k m :
  ~ In k (map fst (JsMap.entries m)) -> JsMap.get k m = None.
Proof.
  induction m as [|[[k' v']|] m IH]; simpl; auto.
  intros Hnotin. destruct (String.eqb k k') eqn:E.
  - apply String.eqb_eq in E; subst k'. tauto.
  - apply IH. tauto.
Qed.

Lemma get_delete k m : JsMap.wf m -> JsMap.get k (JsMap.delete k m) = None.
Proof.
  unfold JsMap.wf. induction m as [|[[k' v']|] m IH]; simpl; auto.
  intros Hwf. inversion Hwf as [|? ? Hnotin Hwf']; subst.
  destruct (String.eqb k k') eqn:E; simpl.
  - apply String.eqb_eq in E; subst k'. now apply not_In_get_None.
  - rewrite E. auto.
Qed.

Lemma delete_absent k m : JsMap.get k m = None -> JsMap.delete k m = m.
Proof.
  induction m as [|[[k' v']|] m IH]; simpl; auto.
  - destruct (String.eqb k k'); [discriminate|].
    intros H. now rewrite IH.
  - intros H. now rewrite IH.
Qed.

Lemma scan_skip i m :
  JsMap.scan i (None :: m) = JsMap.scan (S i) m.
Proof. reflexivity. Qed.

Lemma skipn_cons_inv {A : Type} (idx : nat) (l : list A) x rest :
  skipn idx l = x :: rest -> skipn (S idx) l = rest.
Proof.
  revert idx; induction l as [|y l IH]; intros [|idx]; simpl;
    try discriminate.
  - now intros [= _ ->].
  - intros H. apply IH in H. exact H.
Qed.
End WithValue.
End JsMapFacts.

(** ** The child connection *)

Lemma same_child_refl s : same_child s s.
Proof. repeat split. Qed.

Lemma same_child_trans s1 s2 s3 :
  same_child s1 s2 -> same_child s2 s3 -> same_child s1 s3.
Proof.
  unfold same_child; intros (A1 & A2 & A3) (B1 & B2 & B3).
  repeat split; congruence.
Qed.

Lemma single_child_same s s' :
  same_child s s' -> running s -> single_child s -> single_child s'.
Proof.
  intros (Hc & Hl & Hs) Hrun [I1 I2 I3 I4]. split.
  - congruence.
  - lia.
  - intros _ Hnone. rewrite Hc in Hnone.
    specialize (I3 Hrun Hnone). rewrite I3 in Hl.
    destruct (clients s'); [reflexivity | discriminate].
  - intros c Hsome. rewrite Hc in Hsome. rewrite Hl. auto.
Qed.

Ltac same_child_tac :=
  unfold same_child; cbn; rewrite ?length_update_nth; auto.

(** The lemmas that say which parts of the state a function of the program
    leaves alone. *)
Create HintDb frame.

Section ChildConnection.
Variable CHROME_URL : string.

Lemma same_child_startHTTP_catch s : same_child s (startHTTP_catch s).
Proof. same_child_tac. Qed.

Lemma same_child_after_init k s : same_child s (after_init k s).
Proof.
  destruct k; unfold after_init; cbn;
    destruct (chromeClient s); same_child_tac.
Qed.

Lemma same_child_init_failed k e s : same_child s (init_failed k e s).
Proof. destruct k; same_child_tac. Qed.

Lemma same_child_cleanup_client s :
  same_child s (cleanup_client s).
Proof.
  unfold cleanup_client; cbn. destruct (chromeClient s); same_child_tac.
Qed.

Lemma same_child_cleanup_sessions idx s :
  same_child s (cleanup_sessions idx s).
Proof.
  unfold cleanup_sessions.
  destruct (JsMap.next idx (activeSessions s)) as [[idx' [k sess]]|].
  - same_child_tac.
  - apply same_child_cleanup_client.
Qed.

Lemma same_child_fire ev ls s : same_child s (fire ev ls s).
Proof.
  unfold fire. revert s. induction ls as [|l ls IH]; intros s; simpl.
  - apply same_child_refl.
  - eapply same_child_trans; [|apply IH].
    destruct (ResEvent_eqb (fst l) ev); [destruct (snd l)|]; same_child_tac.
Qed.

Lemma same_child_mcp_forward r method session s :
  same_child s (mcp_forward r method session s).
Proof.
  unfold mcp_forward. destruct (String.eqb method "GET"); same_child_tac.
Qed.

#[local] Hint Resolve same_child_after_init same_child_init_failed
  same_child_cleanup_sessions same_child_mcp_forward : frame.

Lemma same_child_on_request token method url s :
  same_child s (on_request CHROME_URL token method url s).
Proof.
  unfold on_request.
  destruct (String.eqb url "/health"); [same_child_tac|].
  destruct (String.eqb url "/mcp" || String.prefix "/mcp" url);
    [|same_child_tac].
  destruct (String.eqb method "OPTIONS"); [same_child_tac|].
  cbn. destruct (JsMap.get sharedSessionId (activeSessions s)).
  - eapply same_child_trans; [|apply same_child_mcp_forward]. same_child_tac.
  - same_child_tac.
Qed.

Lemma same_child_run_timer cb s : same_child s (run_timer cb s).
Proof.
  destruct cb; unfold run_timer, cleanupSession_timeout.
  destruct (JsMap.get sharedSessionId (activeSessions s)); same_child_tac.
Qed.

(** [await this.initChromeConnection()] either finds the field set and
    changes nothing, or, on a running bridge that satisfies the invariant,
    starts the first child. *)
Lemma single_child_await_init k s :
  running s -> single_child s -> single_child (await_init k s).
Proof.
  intros Hrun Hinv. unfold await_init, initChromeConnection.
  destruct (chromeClient s) as [c|] eqn:Hc.
  - eapply single_child_same; [apply same_child_after_init| |]; auto.
  - destruct Hinv as [I1 I2 I3 I4]. specialize (I3 Hrun Hc).
    split; cbn; rewrite ?I3 in *; cbn in *.
    + unfold spawn_count in *. cbn. lia.
    + lia.
    + discriminate.
    + intros c [= <-]. lia.
Qed.

Lemma same_child_await_init_set k s c :
  chromeClient s = Some c -> same_child s (await_init k s).
Proof.
  intros Hc. unfold await_init, initChromeConnection. rewrite Hc.
  apply same_child_after_init.
Qed.

(** Calls of [initChromeConnection] one after the other, none of them
    resumed in between. *)
Lemma await_init_many ks s c :
  chromeClient s = Some c ->
  same_child s (fold_left (fun st k => await_init k st) ks s).
Proof.
  revert s. induction ks as [|k ks IH]; intros s Hc; simpl.
  - apply same_child_refl.
  - eapply same_child_trans; [apply (same_child_await_init_set k s c Hc)|].
    apply IH.
    destruct (same_child_await_init_set k s c Hc) as [-> _]. exact Hc.
Qed.

Lemma single_child_resume t o s :
  running s -> single_child s -> single_child (resume t o s).
Proof.
  intros Hrun Hinv.
  destruct t, o; cbn [resume];
    try (eapply single_child_same; [|exact Hrun|exact Hinv];
         first
           [ solve [same_child_tac]
           | solve [eapply same_child_trans; [|eauto with frame];
                    same_child_tac] ]).
  (* [TCleanupClient] resolved: the field is cleared and the process
     exits *)
  destruct Hinv as [I1 I2 I3 I4]. split; cbn; auto; try contradiction.
  discriminate.
Qed.

Lemma step_running s ev s' :
  step CHROME_URL s ev = Some s' ->
  running s /\ dispatch CHROME_URL s ev = Some s'.
Proof.
  unfold step, running. destruct (phase s); auto; discriminate.
Qed.

Ltac keep_child Hrun Hinv :=
  eapply single_child_same; [|exact Hrun|exact Hinv].

Lemma single_child_step s ev s' :
  step CHROME_URL s ev = Some s' -> single_child s -> single_child s'.
Proof.
  intros Hstep Hinv. apply step_running in Hstep as [Hrun Hstep].
  destruct ev; cbn [dispatch] in Hstep.
  - (* EvMain *)
    destruct (phase s) eqn:Hp; try discriminate.
    injection Hstep as <-. unfold main. destruct useStdio.
    + keep_child Hrun Hinv. same_child_tac.
    + unfold startHTTP. apply single_child_await_init.
      * unfold running; cbn; auto.
      * keep_child Hrun Hinv. same_child_tac.
  - (* EvSignal *)
    injection Hstep as <-. keep_child Hrun Hinv.
    unfold on_signal, cleanup.
    eapply same_child_trans; [|apply same_child_cleanup_sessions].
    same_child_tac.
  - (* EvRequest *)
    destruct (listening s); [|discriminate]. injection Hstep as <-.
    keep_child Hrun Hinv. apply same_child_on_request.
  - (* EvResponse *)
    destruct (nth_error (responses s) r); [|discriminate].
    injection Hstep as <-. keep_child Hrun Hinv. apply same_child_fire.
  - (* EvTimer *)
    destruct (nth_error (timers s) i) as [[d cb]|]; [|discriminate].
    injection Hstep as <-. keep_child Hrun Hinv.
    eapply same_child_trans; [|apply same_child_run_timer]. same_child_tac.
  - (* EvSettle *)
    destruct (nth_error (tasks s) i) as [t|]; [|discriminate].
    injection Hstep as <-. apply single_child_resume.
    + exact Hrun.
    + keep_child Hrun Hinv. same_child_tac.
  - (* EvRpc *)
    destruct (nth_error (servers s) sv) as [obj|]; [|discriminate].
    destruct (existsb (RpcMethod_eqb m) (sv_handlers obj)); [|discriminate].
    injection Hstep as <-. unfold handler.
    destruct m; apply single_child_await_init; try exact Hrun;
      keep_child Hrun Hinv; same_child_tac.
  - (* EvTransportWriteHead *)
    destruct (nth_error (responses s) r) as [res|]; [|discriminate].
    destruct (handed_over r s && negb (headersSent res)); [|discriminate].
    injection Hstep as <-. keep_child Hrun Hinv. same_child_tac.
  - (* EvChildExit *)
    destruct (nth_error (clients s) c) as [[]|]; try discriminate.
    injection Hstep as <-. keep_child Hrun Hinv. same_child_tac.
  - (* EvListenError *)
    destruct (listening s); [|discriminate]. injection Hstep as <-.
    keep_child Hrun Hinv. unfold on_listen_error.
    destruct (String.eqb code "EADDRINUSE"); same_child_tac.
Qed.

Lemma single_child_init : single_child init.
Proof.
  split; cbn; auto. discriminate.
Qed.

Lemma single_child_reachable s :
  reachable CHROME_URL s -> single_child s.
Proof.
  induction 1 as [|s ev s' _ IH Hstep].
  - apply single_child_init.
  - eapply single_child_step; eauto.
Qed.

End ChildConnection.

(** ** The registry *)

Lemma keeps_registry_trans s1 s2 s3 :
  keeps_registry s1 s2 -> keeps_registry s2 s3 -> keeps_registry s1 s3.
Proof. unfold keeps_registry; auto. Qed.

Ltac registry_tac :=
  unfold keeps_registry, registry_wf; cbn;
  auto using JsMapFacts.wf_set, JsMapFacts.wf_delete, JsMapFacts.wf_clear.

Section Registry.
Variable CHROME_URL : string.

Lemma keeps_registry_after_init k s : keeps_registry s (after_init k s).
Proof.
  destruct k; unfold after_init; cbn; destruct (chromeClient s);
    registry_tac.
Qed.

Lemma keeps_registry_init_failed k e s :
  keeps_registry s (init_failed k e s).
Proof. destruct k; registry_tac. Qed.

Lemma keeps_registry_await_init k s : keeps_registry s (await_init k s).
Proof.
  unfold await_init, initChromeConnection.
  destruct (chromeClient s) eqn:Hc.
  - apply keeps_registry_after_init.
  - registry_tac.
Qed.

Lemma keeps_registry_cleanup_client s : keeps_registry s (cleanup_client s).
Proof.
  unfold cleanup_client; cbn. destruct (chromeClient s); registry_tac.
Qed.

Lemma keeps_registry_cleanup_sessions idx s :
  keeps_registry s (cleanup_sessions idx s).
Proof.
  unfold cleanup_sessions.
  destruct (JsMap.next idx (activeSessions s)) as [[idx' [k sess]]|].
  - registry_tac.
  - apply keeps_registry_cleanup_client.
Qed.

Lemma keeps_registry_fire ev ls s : keeps_registry s (fire ev ls s).
Proof.
  unfold fire. revert s. induction ls as [|l ls IH]; intros s; simpl.
  - registry_tac.
  - eapply keeps_registry_trans; [|apply IH].
    destruct (ResEvent_eqb (fst l) ev); [destruct (snd l)|]; registry_tac.
Qed.

Lemma keeps_registry_mcp_forward r method session s :
  keeps_registry s (mcp_forward r method session s).
Proof.
  unfold mcp_forward. destruct (String.eqb method "GET"); registry_tac.
Qed.

#[local] Hint Resolve keeps_registry_after_init keeps_registry_init_failed
  keeps_registry_cleanup_sessions keeps_registry_mcp_forward : frame.

Lemma keeps_registry_on_request token method url s :
  keeps_registry s (on_request CHROME_URL token method url s).
Proof.
  unfold on_request.
  destruct (String.eqb url "/health"); [registry_tac|].
  destruct (String.eqb url "/mcp" || String.prefix "/mcp" url);
    [|registry_tac].
  destruct (String.eqb method "OPTIONS"); [registry_tac|].
  cbn. destruct (JsMap.get sharedSessionId (activeSessions s)).
  - eapply keeps_registry_trans; [|apply keeps_registry_mcp_forward].
    registry_tac.
  - registry_tac.
Qed.

Lemma keeps_registry_run_timer cb s : keeps_registry s (run_timer cb s).
Proof.
  destruct cb; unfold run_timer, cleanupSession_timeout.
  destruct (JsMap.get sharedSessionId (activeSessions s)); registry_tac.
Qed.

Lemma keeps_registry_resume t o s : keeps_registry s (resume t o s).
Proof.
  destruct t, o; cbn [resume];
    first
      [ solve [registry_tac]
      | solve [eapply keeps_registry_trans; [|eauto with frame];
               registry_tac] ].
Qed.

Lemma registry_wf_step s ev s' :
  step CHROME_URL s ev = Some s' -> registry_wf s -> registry_wf s'.
Proof.
  intros Hstep. apply step_running in Hstep as [_ Hstep].
  change (keeps_registry s s').
  destruct ev; cbn [dispatch] in Hstep.
  - destruct (phase s); try discriminate. injection Hstep as <-.
    unfold main. destruct useStdio.
    + registry_tac.
    + unfold startHTTP.
      eapply keeps_registry_trans; [|apply keeps_registry_await_init].
      registry_tac.
  - injection Hstep as <-. unfold on_signal, cleanup.
    eapply keeps_registry_trans; [|apply keeps_registry_cleanup_sessions].
    registry_tac.
  - destruct (listening s); [|discriminate]. injection Hstep as <-.
    apply keeps_registry_on_request.
  - destruct (nth_error (responses s) r); [|discriminate].
    injection Hstep as <-. apply keeps_registry_fire.
  - destruct (nth_error (timers s) i) as [[d cb]|]; [|discriminate].
    injection Hstep as <-.
    eapply keeps_registry_trans; [|apply keeps_registry_run_timer].
    registry_tac.
  - destruct (nth_error (tasks s) i) as [t|]; [|discriminate].
    injection Hstep as <-.
    eapply keeps_registry_trans; [|apply keeps_registry_resume].
    registry_tac.
  - destruct (nth_error (servers s) sv) as [obj|]; [|discriminate].
    destruct (existsb (RpcMethod_eqb m) (sv_handlers obj)); [|discriminate].
    injection Hstep as <-. unfold handler.
    destruct m;
      (eapply keeps_registry_trans; [|apply keeps_registry_await_init]);
      registry_tac.
  - destruct (nth_error (responses s) r) as [res|]; [|discriminate].
    destruct (handed_over r s && negb (headersSent res)); [|discriminate].
    injection Hstep as <-. registry_tac.
  - destruct (nth_error (clients s) c) as [[]|]; try discriminate.
    injection Hstep as <-. registry_tac.
  - destruct (listening s); [|discriminate]. injection Hstep as <-.
    unfold on_listen_error.
    destruct (String.eqb code "EADDRINUSE"); registry_tac.
Qed.

Lemma registry_wf_reachable s : reachable CHROME_URL s -> registry_wf s.
Proof.
  induction 1 as [|s ev s' _ IH Hstep].
  - exact (@JsMapFacts.wf_empty Session).
  - eapply registry_wf_step; eauto.
Qed.

End Registry.

(** ** Runs *)

Lemma reachable_run CHROME_URL s evs s' :
  reachable CHROME_URL s -> run CHROME_URL s evs = Some s' ->
  reachable CHROME_URL s'.
Proof.
  revert s; induction evs as [|ev evs IH]; intros s Hs; simpl.
  - now intros [= <-].
  - destruct (step CHROME_URL s ev) as [s1|] eqn:Hstep; [|discriminate].
    apply IH. eapply reachable_step; eauto.
Qed.

Lemma run_app CHROME_URL s evs1 evs2 :
  run CHROME_URL s (evs1 ++ evs2) =
  match run CHROME_URL s evs1 with
  | Some s1 => run CHROME_URL s1 evs2
  | None => None
  end.
Proof.
  revert s; induction evs1 as [|ev evs1 IH]; intros s; simpl; auto.
  destruct (step CHROME_URL s ev); auto.
Qed.

(** ** C1: a failed connection attempt *)

(** C1 (the code departs from the claim).  The bridge runs in stdio mode;
    the first [ListTools] call starts the child and the handshake fails with
    [e].  The failure is the reply of that call, as the claim says.  But the
    field [chromeClient] keeps the client of the failed attempt, so from then
    on [initChromeConnection] returns at its guard for every caller: the
    next [ListTools] call starts no child and is forwarded to the client
    that never connected.  The same holds in HTTP mode after a start-up
    whose handshake failed, although the bridge then announces that the
    tools will be initialised on the first request. *)
Theorem failed_connection_is_not_retried CHROME_URL (e : Thrown) :
  (exists s1 s2,
     run CHROME_URL init
       [EvMain true; EvSettle 0 Resolved; EvRpc 0 ListTools 1 "";
        EvSettle 0 (Rejected e)] = Some s1 /\
     In (RpcReply 1 (Rejected e)) (trace s1) /\
     chromeClient s1 = Some 0 /\
     clients s1 = [ConnectFailed] /\
     (forall k, initChromeConnection k s1 = (Returned, s1)) /\
     step CHROME_URL s1 (EvRpc 0 ListTools 2 "") = Some s2 /\
     spawn_count (trace s2) = 1 /\
     clients s2 = [ConnectFailed] /\
     tasks s2 = [TListTools 2] /\
     hd_error (trace s2) = Some (ClientListTools 0)) /\
  (exists s1 s2,
     run CHROME_URL init startup_failed = Some s1 /\
     In (ConsoleError
           "[Setup] Tools will be initialized on first request instead")
        (trace s1) /\
     chromeClient s1 = Some 0 /\
     clients s1 = [ConnectFailed] /\
     run CHROME_URL s1
       [EvRequest "a1b2c3d4" "POST" "/mcp"; EvSettle 0 Resolved;
        EvRpc 0 ListTools 1 ""] = Some s2 /\
     spawn_count (trace s2) = 1 /\
     clients s2 = [ConnectFailed] /\
     tasks s2 = [TMcpHandle 0; TListTools 1] /\
     hd_error (trace s2) = Some (ClientListTools 0)).
Proof.
  split.
  - eexists; eexists. split; [vm_compute; reflexivity|].
    split; [vm_compute; auto 10|].
    split; [reflexivity|]. split; [reflexivity|].
    split; [intros k; reflexivity|].
    split; [vm_compute; reflexivity|].
    vm_compute. repeat split.
  - eexists; eexists. split; [vm_compute; reflexivity|].
    split; [vm_compute; auto 10|].
    split; [reflexivity|]. split; [reflexivity|].
    split; [vm_compute; reflexivity|].
    vm_compute. repeat split.
Qed.

(** ** C2: one child process *)

(** C2.  In every reachable state at most one child process has been
    started and at most one client has been constructed, whatever the
    order in which the start-up attempt, the requests, the settlements of
    promises, the timers and the signals are delivered: a call of
    [initChromeConnection] that finds the field empty fills it in the same
    turn, before its [await], and every later call returns at the guard.
    In particular any number of calls that arrive while no connection
    exists, one after the other and before any of them is resumed, start
    exactly one child. *)
Theorem at_most_one_child_spawned CHROME_URL s :
  reachable CHROME_URL s ->
  spawn_count (trace s) <= 1 /\
  length (clients s) <= 1 /\
  spawn_count (trace s) = length (clients s) /\
  (running s -> chromeClient s = None ->
   forall k ks,
     let s' := fold_left (fun st k' => await_init k' st) (k :: ks) s in
     spawn_count (trace s') = 1 /\ length (clients s') = 1).
Proof.
  intros Hreach. apply single_child_reachable in Hreach as [I1 I2 I3 I4].
  split; [lia|]. split; [lia|]. split; [lia|].
  intros Hrun Hnone k ks. specialize (I3 Hrun Hnone). cbv zeta.
  cbn [fold_left].
  assert (Hfirst : chromeClient (await_init k s) = Some 0 /\
                   spawn_count (trace (await_init k s)) = 1 /\
                   length (clients (await_init k s)) = 1).
  { unfold await_init, initChromeConnection. rewrite Hnone. cbn.
    rewrite I3 in *. cbn in *. unfold spawn_count in *. cbn. auto. }
  destruct Hfirst as (Hc & Hs & Hl).
  destruct (await_init_many ks _ 0 Hc) as (_ & -> & ->). auto.
Qed.

(** Three concurrent calls in stdio mode start one child. *)
Lemma at_most_one_child_spawned_witness :
  exists s,
    run default_url init concurrent_calls = Some s /\
    tasks s = [TInitConnect 0 (FromListTools 1); TCallTool 2 "click";
               TListTools 3] /\
    spawn_count (trace s) <= 1 /\
    length (clients s) <= 1 /\
    spawn_count (trace s) = length (clients s).
Proof.
  eexists. split; [vm_compute; reflexivity|]. split; [reflexivity|].
  match goal with
  | |- spawn_count (trace ?s) <= 1 /\ _ =>
      destruct (at_most_one_child_spawned default_url s) as (H1 & H2 & H3 & _)
  end.
  - apply (reachable_run default_url init concurrent_calls);
      [apply reachable_init|vm_compute; reflexivity].
  - split; [exact H1|]. split; [exact H2|exact H3].
Defined.

(** ** C3, C4, C10: the health check *)

Lemma on_request_health CHROME_URL token method s :
  on_request CHROME_URL token method "/health" s =
  set_responses (responses s ++ [health_response CHROME_URL token s])
    (console_log (method ++ " " ++ "/health") s).
Proof.
  unfold on_request. rewrite String.eqb_refl.
  unfold update_response. cbn [responses set_responses].
  rewrite update_nth_snoc. reflexivity.
Qed.

Lemma step_health CHROME_URL s token method s' :
  step CHROME_URL s (EvRequest token method "/health") = Some s' ->
  running s /\
  s' = set_responses (responses s ++ [health_response CHROME_URL token s])
         (console_log (method ++ " " ++ "/health") s).
Proof.
  intros Hstep. apply step_running in Hstep as [Hrun Hstep]. split; auto.
  cbn [dispatch] in Hstep. destruct (listening s); [|discriminate].
  injection Hstep as <-. apply on_request_health.
Qed.

Lemma not_live_without_client CHROME_URL s :
  reachable CHROME_URL s -> running s -> chromeClient s = None ->
  ~ live_connection s.
Proof.
  intros Hreach Hrun Hnone [c Hc].
  apply single_child_reachable in Hreach as [_ _ I3 _].
  rewrite (I3 Hrun Hnone) in Hc. destruct c; discriminate.
Qed.

(** C3 (amended).  Every request for [/health] that the server receives is
    answered with status 200 and a JSON body of the four fields [status],
    [chrome_url], [chrome_connected] and [tools_available].  The connected
    flag is true if and only if the field [chromeClient] is not null at
    that moment; whenever a live connection with a completed handshake
    exists, the flag is true. *)
Theorem health_reports_client_field CHROME_URL s token method s' :
  reachable CHROME_URL s ->
  step CHROME_URL s (EvRequest token method "/health") = Some s' ->
  exists res connected tools,
    nth_error (responses s') (length (responses s)) = Some res /\
    statusCode res = Some 200 /\
    headersSent res = true /\
    ended res = true /\
    body res =
      Json [("status", JString "ok");
            ("chrome_url", JString CHROME_URL);
            ("chrome_connected", JBool connected);
            ("tools_available", JBool tools)] /\
    (connected = true <-> chromeClient s <> None) /\
    (live_connection s -> connected = true).
Proof.
  intros Hreach Hstep. apply step_health in Hstep as [Hrun ->].
  exists (health_response CHROME_URL token s),
    (neq_null (chromeClient s)),
    (if truthy (chromeClient s) then true else false).
  cbn [responses set_responses]. rewrite nth_error_snoc.
  repeat split; try reflexivity.
  - destruct (chromeClient s); cbn; congruence.
  - destruct (chromeClient s); cbn; congruence.
  - intros Hlive. destruct (chromeClient s) eqn:Hc; cbn; auto.
    exfalso. eapply not_live_without_client; eauto.
Qed.

(** The first health check after a successful start-up. *)
Lemma health_reports_client_field_witness :
  exists s s',
    run default_url init started_up = Some s /\
    step default_url s (EvRequest "a1b2c3d4" "GET" "/health") = Some s' /\
    exists res connected tools,
      nth_error (responses s') (length (responses s)) = Some res /\
      statusCode res = Some 200 /\
      headersSent res = true /\
      ended res = true /\
      body res =
        Json [("status", JString "ok");
              ("chrome_url", JString default_url);
              ("chrome_connected", JBool connected);
              ("tools_available", JBool tools)] /\
      (connected = true <-> chromeClient s <> None) /\
      (live_connection s -> connected = true).
Proof.
  eexists; eexists.
  split; [vm_compute; reflexivity|].
  split; [vm_compute; reflexivity|].
  refine (health_reports_client_field default_url _ "a1b2c3d4" "GET" _ _ _).
  - apply (reachable_run default_url init started_up);
      [apply reachable_init|vm_compute; reflexivity].
  - vm_compute; reflexivity.
Defined.

(** After a handshake that failed, and after the child of a completed
    handshake is gone, no live connection exists, yet the health check
    answers [chrome_connected: true]: the flag is not equivalent to a live
    connection. *)
Lemma health_connected_without_live_connection :
  connected_without_connection startup_failed /\
  connected_without_connection child_gone.
Proof.
  split; eexists; eexists; eexists;
    (split; [vm_compute; reflexivity|]);
    (split; [vm_compute; reflexivity|]);
    (split; [vm_compute; reflexivity|]);
    (split; [reflexivity|]);
    (split; [reflexivity|]);
    intros [c Hc]; vm_compute in Hc; destruct c as [|[|c]]; discriminate.
Qed.

(** C4.  Handling a request for [/health] logs the request, writes the
    response and does nothing else: the field [chromeClient] and the
    registry [activeSessions] are the same after as before, no client is
    constructed, no child is started, no continuation is suspended, no
    timer is set and no call into the SDK is made. *)
Theorem health_check_leaves_bridge_unchanged CHROME_URL token method s :
  let s' := on_request CHROME_URL token method "/health" s in
  chromeClient s' = chromeClient s /\
  activeSessions s' = activeSessions s /\
  clients s' = clients s /\
  servers s' = servers s /\
  transports s' = transports s /\
  tasks s' = tasks s /\
  timers s' = timers s /\
  phase s' = phase s /\
  calls (trace s') = calls (trace s) /\
  spawn_count (trace s') = spawn_count (trace s) /\
  (forall c k, In (TInitConnect c k) (tasks s') ->
               In (TInitConnect c k) (tasks s)) /\
  responses s' = responses s ++ [health_response CHROME_URL token s].
Proof.
  cbv zeta. rewrite on_request_health. cbn. repeat split; auto.
Qed.

(** C10.  In the body of every health response the fields
    [chrome_connected] and [tools_available] carry the same boolean, which
    is true exactly when the field [chromeClient] is not null. *)
Theorem health_flags_agree CHROME_URL token method s :
  let s' := on_request CHROME_URL token method "/health" s in
  exists res b,
    nth_error (responses s') (length (responses s)) = Some res /\
    json_field "chrome_connected" res = Some (JBool b) /\
    json_field "tools_available" res = Some (JBool b) /\
    (b = true <-> chromeClient s <> None).
Proof.
  cbv zeta. rewrite on_request_health.
  exists (health_response CHROME_URL token s), (neq_null (chromeClient s)).
  cbn [responses set_responses]. rewrite nth_error_snoc.
  split; [reflexivity|].
  unfold json_field, health_response, health_body. cbn.
  destruct (chromeClient s); cbn; repeat split; congruence.
Qed.

(** ** C5: the session of an [/mcp] request *)

Lemma mcp_url_not_health url :
  String.eqb url "/mcp" || String.prefix "/mcp" url = true ->
  String.eqb url "/health" = false.
Proof.
  intros H. apply orb_true_iff in H as [H|H].
  - apply String.eqb_eq in H; subst url. reflexivity.
  - destruct url as [|a [|b url]]; cbn [String.prefix] in H;
      try discriminate.
    + destruct (Ascii.ascii_dec "/"%char a); discriminate.
    + destruct (Ascii.ascii_dec "/"%char a); [|discriminate].
      destruct (Ascii.ascii_dec "m"%char b); [|discriminate].
      subst a b. reflexivity.
Qed.

Lemma mcp_forward_spec r method session s :
  let s' := mcp_forward r method session s in
  chromeClient s' = chromeClient s /\
  activeSessions s' = activeSessions s /\
  clients s' = clients s /\
  servers s' = servers s /\
  transports s' = transports s /\
  tasks s' = tasks s ++ [TMcpHandle r] /\
  hd_error (trace s') = Some (TransportHandle (transport session) r) /\
  spawn_count (trace s') = spawn_count (trace s).
Proof.
  unfold mcp_forward. destruct (String.eqb method "GET"); cbn;
    repeat split; reflexivity.
Qed.

Lemma handler_forwards_to_client st c rpc name :
  chromeClient st = Some c ->
  let s1 := handler ListTools rpc name st in
  let s2 := handler CallTool rpc name st in
  hd_error (trace s1) = Some (ClientListTools c) /\
  hd_error (trace s2) = Some (ClientCallTool c name) /\
  clients s1 = clients st /\ clients s2 = clients st /\
  spawn_count (trace s1) = spawn_count (trace st) /\
  spawn_count (trace s2) = spawn_count (trace st).
Proof.
  intros Hc. unfold handler, await_init, initChromeConnection. cbn.
  rewrite Hc. cbn. rewrite Hc. cbn. repeat split; reflexivity.
Qed.

Lemma mcp_connect_resolved r method sv tr s2 :
  let s3 := resume (TMcpConnect r method sv tr) Resolved s2 in
  JsMap.get sharedSessionId (activeSessions s3) =
    Some {| server := sv; transport := tr |} /\
  (forall k, k <> sharedSessionId ->
     JsMap.get k (activeSessions s3) = JsMap.get k (activeSessions s2)) /\
  servers s3 = servers s2 /\
  transports s3 = transports s2 /\
  chromeClient s3 = chromeClient s2 /\
  clients s3 = clients s2 /\
  spawn_count (trace s3) = spawn_count (trace s2) /\
  tasks s3 = tasks s2 ++ [TMcpHandle r] /\
  hd_error (trace s3) = Some (TransportHandle tr r).
Proof.
  cbv zeta. cbn [resume].
  match goal with
  | |- context [mcp_forward ?r ?m ?se ?st] =>
      pose proof (mcp_forward_spec r m se st) as Hf
  end.
  cbv zeta in Hf.
  destruct Hf as (F1 & F2 & F3 & F4 & F5 & F6 & F7 & F8).
  rewrite F1, F2, F3, F4, F5, F6, F7, F8. cbn.
  repeat split; auto.
  - apply JsMapFacts.get_set.
  - intros k Hk. now apply JsMapFacts.get_set_ne.
Qed.

(** C5.  A request for [/mcp] other than [OPTIONS] looks up the shared
    session.  If the registry has it, that session is used: its transport
    gets the request, and no server, transport or registry entry is made.
    Otherwise exactly one server, with the [ListTools] and [CallTool]
    handlers, and one transport are constructed and connected; once the
    connection resolves the pair is stored under the shared identifier and
    its transport gets the request.  The handlers of every server forward
    to the client in the field [chromeClient].  On neither path is a client
    constructed or a child started. *)
Theorem mcp_request_gets_or_creates_session CHROME_URL token method url s :
  String.eqb url "/mcp" || String.prefix "/mcp" url = true ->
  String.eqb method "OPTIONS" = false ->
  let r := length (responses s) in
  let s' := on_request CHROME_URL token method url s in
  chromeClient s' = chromeClient s /\
  clients s' = clients s /\
  spawn_count (trace s') = spawn_count (trace s) /\
  activeSessions s' = activeSessions s /\
  match JsMap.get sharedSessionId (activeSessions s) with
  | Some session =>
      servers s' = servers s /\
      transports s' = transports s /\
      tasks s' = tasks s ++ [TMcpHandle r] /\
      hd_error (trace s') = Some (TransportHandle (transport session) r)
  | None =>
      let sv := length (servers s) in
      let tr := length (transports s) in
      servers s' =
        servers s ++ [{| sv_session := sharedSessionId;
                         sv_handlers := [ListTools; CallTool] |}] /\
      transports s' = transports s ++ [StreamableHTTP] /\
      tasks s' = tasks s ++ [TMcpConnect r method sv tr] /\
      hd_error (trace s') = Some (ServerConnect sv tr) /\
      (forall m rpc name,
         dispatch CHROME_URL s' (EvRpc sv m rpc name) =
         Some (handler m rpc name s')) /\
      (forall s2,
         let s3 := resume (TMcpConnect r method sv tr) Resolved s2 in
         JsMap.get sharedSessionId (activeSessions s3) =
           Some {| server := sv; transport := tr |} /\
         (forall k, k <> sharedSessionId ->
            JsMap.get k (activeSessions s3) =
            JsMap.get k (activeSessions s2)) /\
         servers s3 = servers s2 /\
         transports s3 = transports s2 /\
         chromeClient s3 = chromeClient s2 /\
         clients s3 = clients s2 /\
         spawn_count (trace s3) = spawn_count (trace s2) /\
         tasks s3 = tasks s2 ++ [TMcpHandle r] /\
         hd_error (trace s3) = Some (TransportHandle tr r))
  end /\
  (forall st c rpc name,
     chromeClient st = Some c ->
     let s1 := handler ListTools rpc name st in
     let s2 := handler CallTool rpc name st in
     hd_error (trace s1) = Some (ClientListTools c) /\
     hd_error (trace s2) = Some (ClientCallTool c name) /\
     clients s1 = clients st /\ clients s2 = clients st /\
     spawn_count (trace s1) = spawn_count (trace st) /\
     spawn_count (trace s2) = spawn_count (trace st)).
Proof.
  intros Hurl Hopt. cbv zeta. unfold on_request.
  rewrite (mcp_url_not_health _ Hurl), Hurl, Hopt.
  cbn [activeSessions update_response set_responses console_log emit
    set_trace].
  destruct (JsMap.get sharedSessionId (activeSessions s)) as [session|]
    eqn:Hget.
  - match goal with
    | |- context [mcp_forward ?r ?m ?se ?st] =>
        pose proof (mcp_forward_spec r m se st) as Hf
    end.
    cbv zeta in Hf. cbn in Hf.
    destruct Hf as (F1 & F2 & F3 & F4 & F5 & F6 & F7 & F8).
    split; [exact F1|]. split; [exact F3|]. split; [exact F8|].
    split; [exact F2|]. split; [auto|].
    intros st c rpc name. apply handler_forwards_to_client.
  - cbn [createServerForSession].
    split; [reflexivity|]. split; [reflexivity|]. split; [reflexivity|].
    split; [reflexivity|]. split.
    + split; [reflexivity|]. split; [reflexivity|]. split; [reflexivity|].
      split; [reflexivity|]. split.
      * intros m rpc name. cbn. rewrite nth_error_snoc.
        destruct m; reflexivity.
      * intros s2. apply mcp_connect_resolved.
    + intros st c rpc name. apply handler_forwards_to_client.
Qed.

(** A [POST] to [/mcp] on the fresh bridge constructs the first pair. *)
Lemma mcp_request_gets_or_creates_session_witness :
  (String.eqb "/mcp" "/mcp" || String.prefix "/mcp" "/mcp" = true) /\
  String.eqb "POST" "OPTIONS" = false /\
  clients (on_request default_url "a1b2c3d4" "POST" "/mcp" init) = [] /\
  servers (on_request default_url "a1b2c3d4" "POST" "/mcp" init) =
    [{| sv_session := sharedSessionId;
        sv_handlers := [ListTools; CallTool] |}].
Proof.
  split; [reflexivity|]. split; [reflexivity|].
  pose proof
    (mcp_request_gets_or_creates_session default_url "a1b2c3d4" "POST"
       "/mcp" init eq_refl eq_refl) as H.
  cbv zeta in H. destruct H as (_ & Hc & _ & _ & Hs & _).
  split; [exact Hc|]. exact (proj1 Hs).
Defined.

Lemma step_dispatch CHROME_URL s ev :
  running s -> step CHROME_URL s ev = dispatch CHROME_URL s ev.
Proof.
  unfold running, step. destruct (phase s); tauto.
Qed.

(** ** C6, C7: the end of a stream and the removal of the session *)

Lemma mcp_forward_listeners r session s res :
  nth_error (responses s) r = Some res ->
  exists res',
    nth_error (responses (mcp_forward r "GET" session s)) r = Some res' /\
    listeners res' =
      listeners res ++ [(Close, CleanupSession); (Finish, CleanupSession)].
Proof.
  intros Hres. unfold mcp_forward. cbn.
  rewrite nth_error_update_nth, Hres. cbn.
  eexists. split; [reflexivity|]. cbn. now rewrite <- app_assoc.
Qed.

Lemma cleanupSession_timeout_spec s :
  registry_wf s ->
  let s' := cleanupSession_timeout s in
  JsMap.get sharedSessionId (activeSessions s') = None /\
  (forall k, k <> sharedSessionId ->
     JsMap.get k (activeSessions s') = JsMap.get k (activeSessions s)) /\
  chromeClient s' = chromeClient s /\
  clients s' = clients s /\
  (forall c, In (ClientClose c) (trace s') -> In (ClientClose c) (trace s)).
Proof.
  intros Hwf. cbv zeta. unfold cleanupSession_timeout.
  destruct (JsMap.get sharedSessionId (activeSessions s)) as [sess|]
    eqn:Hget; cbn.
  - split; [now apply JsMapFacts.get_delete|].
    split; [intros k Hk; now apply JsMapFacts.get_delete_ne|].
    repeat split; auto.
    intros c [H|[H|H]]; try discriminate; auto.
  - repeat split; auto.
Qed.



(** C7.  The removal of the shared session, as the timer callback of
    [cleanupSession] does it.  With a session in the registry: the entry is
    deleted, [close] is called on its transport and the callback waits;
    once that has resolved, [close] is called on its server, so the
    transport is closed first and the server second (if the first [close]
    rejects, the error is logged and the server is not closed).  With no
    session in the registry the callback changes nothing and closes
    nothing; in particular a second removal after a first is a no-op.  The
    loop of [cleanup] closes the two objects of a session in the same
    order. *)
Theorem session_removal_is_ordered_and_idempotent CHROME_URL s :
  reachable CHROME_URL s ->
  let s1 := cleanupSession_timeout s in
  (forall idx idx' k sess,
     JsMap.next idx (activeSessions s) = Some (idx', (k, sess)) ->
     let s2 := cleanup_sessions idx s in
     hd_error (trace s2) = Some (TransportClose (transport sess)) /\
     tasks s2 = tasks s ++ [TCleanupTransport idx' k sess] /\
     forall s3,
       hd_error (trace (resume (TCleanupTransport idx' k sess) Resolved s3)) =
       Some (ServerClose (server sess))) /\
  match JsMap.get sharedSessionId (activeSessions s) with
  | Some sess =>
      activeSessions s1 = JsMap.delete sharedSessionId (activeSessions s) /\
      JsMap.get sharedSessionId (activeSessions s1) = None /\
      trace s1 =
        TransportClose (transport sess)
          :: ConsoleLog "Cleaning up session after SSE disconnect"
          :: trace s /\
      tasks s1 = tasks s ++ [TSessionCloseTransport sess] /\
      (forall s2,
         let s3 := resume (TSessionCloseTransport sess) Resolved s2 in
         trace s3 = ServerClose (server sess) :: trace s2 /\
         tasks s3 = tasks s2 ++ [TSessionCloseServer sess] /\
         activeSessions s3 = activeSessions s2) /\
      (forall s2 e,
         resume (TSessionCloseTransport sess) (Rejected e) s2 =
         console_error "Error cleaning up session:" s2) /\
      (forall s2, resume (TSessionCloseServer sess) Resolved s2 = s2) /\
      cleanupSession_timeout s1 = s1
  | None => s1 = s
  end.
Proof.
  intros Hreach. apply registry_wf_reachable in Hreach.
  cbv zeta. split.
  { intros idx idx' k sess Hnext. unfold cleanup_sessions.
    rewrite Hnext. cbn. auto. }
  destruct (JsMap.get sharedSessionId (activeSessions s)) as [sess|]
    eqn:Hget.
  - assert (Hs1 : cleanupSession_timeout s =
        suspend (TSessionCloseTransport sess)
          (emit (TransportClose (transport sess))
             (set_activeSessions
                (JsMap.delete sharedSessionId (activeSessions s))
                (console_log "Cleaning up session after SSE disconnect" s)))).
    { unfold cleanupSession_timeout. now rewrite Hget. }
    rewrite Hs1. cbn. repeat split; auto.
    + now apply JsMapFacts.get_delete.
    + unfold cleanupSession_timeout. cbn.
      now rewrite JsMapFacts.get_delete.
  - unfold cleanupSession_timeout. now rewrite Hget.
Qed.

(** The removal of the session of the first [GET]. *)
Lemma session_removal_is_ordered_and_idempotent_witness :
  run default_url init stream_opened = Some stream_state /\
  let s1 := cleanupSession_timeout stream_state in
  JsMap.get sharedSessionId (activeSessions s1) = None /\
  hd_error (trace s1) = Some (TransportClose 0) /\
  cleanupSession_timeout s1 = s1.
Proof.
  split; [vm_compute; reflexivity|].
  pose proof
    (session_removal_is_ordered_and_idempotent default_url stream_state
       (reachable_run default_url init stream_opened stream_state
          (reachable_init default_url) eq_refl)) as H.
  cbv zeta in H. destruct H as [_ H].
  change (JsMap.get sharedSessionId (activeSessions stream_state))
    with (Some {| server := 0; transport := 0 |}) in H.
  destruct H as (_ & H2 & H3 & _ & _ & _ & _ & H8).
  cbv zeta. split; [exact H2|]. split; [now rewrite H3|exact H8].
Defined.

(** ** C8: failures on [/mcp] *)

Lemma mcp_catch_spec r e s res :
  nth_error (responses s) r = Some res ->
  let s' := mcp_catch r e s in
  nth_error (responses s') r =
    Some (if headersSent res then res else error_response e res) /\
  (forall r', r' <> r ->
     nth_error (responses s') r' = nth_error (responses s) r').
Proof.
  intros Hres. cbv zeta. unfold mcp_catch, update_response. cbn.
  split.
  - rewrite nth_error_update_nth, Hres. cbn.
    destruct (headersSent res); reflexivity.
  - intros r' Hne. apply nth_error_update_nth_ne. congruence.
Qed.

(** C8.  When the handling of an [/mcp] request throws [e], at the
    connection of a new server or inside the transport's [handleRequest]
    (which parses the body and runs the handlers): if the headers of the
    response have not been sent, the response gets status 500 and a JSON
    body with the generic text ["Internal server error"], the message of
    [e] and the request token; if the headers have been sent, the response
    is left as it is.  No other response is touched. *)
Theorem mcp_failure_answers_500_once r e s res method sv tr :
  nth_error (responses s) r = Some res ->
  let failed t := resume t (Rejected e) s in
  forall s',
    s' = failed (TMcpConnect r method sv tr) \/ s' = failed (TMcpHandle r) ->
    exists res',
      nth_error (responses s') r = Some res' /\
      (headersSent res = true -> res' = res) /\
      (headersSent res = false ->
         statusCode res' = Some 500 /\
         headersSent res' = true /\
         ended res' = true /\
         body res' =
           Json [("error", JString "Internal server error");
                 ("message", JString (error_message e));
                 ("requestId", JString (requestId res))]) /\
      (forall r', r' <> r ->
         nth_error (responses s') r' = nth_error (responses s) r').
Proof.
  intros Hres failed s' Hs'.
  assert (Heq : s' = mcp_catch r e s) by (destruct Hs'; subst; reflexivity).
  subst s'. destruct (mcp_catch_spec r e s res Hres) as [H1 H2].
  eexists. split; [exact H1|].
  split; [intros ->; reflexivity|].
  split; [intros ->; cbn; auto|exact H2].
Qed.

(** The transport rejects the first [POST] before anything was sent. *)
Lemma mcp_failure_answers_500_once_witness :
  run default_url init post_received = Some post_state /\
  exists res',
    nth_error
      (responses
         (resume (TMcpHandle 0) (Rejected (ErrorObj "Unexpected token")) 
            post_state)) 0 = Some res' /\
    statusCode res' = Some 500 /\
    body res' =
      Json [("error", JString "Internal server error");
            ("message", JString "Unexpected token");
            ("requestId", JString "a1b2c3d4")].
Proof.
  split; [vm_compute; reflexivity|].
  destruct (mcp_failure_answers_500_once 0 (ErrorObj "Unexpected token")
              post_state _ "POST" 0 0 eq_refl _ (or_intror eq_refl))
    as [res' (H1 & _ & H3 & _)].
  exists res'. split; [exact H1|].
  destruct (H3 eq_refl) as (H4 & _ & _ & H5). split; [exact H4|exact H5].
Defined.

(** ** C9: shutdown *)

Section Shutdown.
Variable CHROME_URL : string.
Variable oc : CloseOutcomes.

Lemma run_settle_last s t o evs :
  running s ->
  run CHROME_URL (suspend t s) (EvSettle (length (tasks s)) o :: evs) =
  run CHROME_URL (resume t o (set_tasks (tasks s) (suspend t s))) evs.
Proof.
  intros Hrun. cbn [run].
  rewrite step_dispatch by exact Hrun.
  cbn [dispatch suspend set_tasks tasks].
  now rewrite nth_error_snoc, remove_nth_snoc.
Qed.

Ltac trace_eq :=
  do 2 f_equal; simpl rev;
  rewrite ?rev_app_distr; simpl rev; rewrite <- ?app_assoc; reflexivity.

Lemma cleanup_sessions_run s tl :
  running s ->
  forall rest idx t,
    skipn idx (activeSessions s) = rest ->
    run CHROME_URL (cleanup_sessions idx (set_trace t s))
      (flat_map (session_settlements oc (length (tasks s)))
         (JsMap.entries rest) ++ tl) =
    run CHROME_URL
      (cleanup_client
         (set_trace
            (rev (flat_map (session_effects oc) (JsMap.entries rest)) ++ t)
            s)) tl.
Proof.
  intros Hrun.
  destruct s as [cc m cl svs trs rs ts tm li ph tc].
  unfold running in Hrun. cbn in Hrun.
  unfold set_trace. cbn [chromeClient activeSessions clients servers
    transports responses tasks timers listening phase trace].
  induction rest as [|[[k sess]|] rest IH]; intros idx t Hskip.
  - unfold cleanup_sessions, JsMap.next. cbn. rewrite Hskip. reflexivity.
  - unfold cleanup_sessions at 1, JsMap.next.
    cbn [activeSessions]. rewrite Hskip.
    cbn [JsMap.scan JsMap.entries flat_map].
    unfold session_settlements at 1, session_effects at 1.
    cbn [fst snd].
    apply JsMapFacts.skipn_cons_inv in Hskip.
    destruct (transport_close oc (transport sess)) as [|err].
    + cbn [app].
      (eapply eq_trans; [apply run_settle_last; exact Hrun|]). cbn [resume].
      (eapply eq_trans; [apply run_settle_last; exact Hrun|]).
      destruct (server_close oc (server sess)) as [|err]; cbn [resume];
        refine (eq_trans (IH (S idx) _ Hskip) _); trace_eq.
    + cbn [app].
      (eapply eq_trans; [apply run_settle_last; exact Hrun|]). cbn [resume].
      refine (eq_trans (IH (S idx) _ Hskip) _); trace_eq.
  - unfold cleanup_sessions at 1, JsMap.next.
    cbn [activeSessions]. rewrite Hskip.
    cbn [JsMap.scan JsMap.entries].
    apply JsMapFacts.skipn_cons_inv in Hskip.
    rewrite <- (IH (S idx) t Hskip).
    unfold cleanup_sessions, JsMap.next. cbn [activeSessions].
    now rewrite Hskip.
Qed.

Lemma In_session_effects k sess (es : list (string * Session)) :
  In (k, sess) es ->
  In (TransportClose (transport sess)) (flat_map (session_effects oc) es) /\
  (transport_close oc (transport sess) = Resolved ->
   In (ServerClose (server sess)) (flat_map (session_effects oc) es)).
Proof.
  intros Hin. split; [|intros Hok]; apply in_flat_map; exists (k, sess);
    (split; [exact Hin|]); unfold session_effects; cbn [fst snd].
  - cbn. auto.
  - rewrite Hok. cbn. auto.
Qed.


End Shutdown.


(** * Further properties *)

Lemma In_remove_nth {A : Type} (x : A) (l : list A) (i : nat) :
  In x (remove_nth i l) -> In x l.
Proof.
  revert i; induction l as [|y l IH]; intros [|i]; simpl; auto.
  intros [H|H]; eauto.
Qed.

Lemma Forall_remove_nth {A : Type} (P : A -> Prop) (l : list A) (i : nat) :
  Forall P l -> Forall P (remove_nth i l).
Proof.
  intros H. apply Forall_forall. intros x Hx.
  apply In_remove_nth in Hx. revert x Hx. now apply Forall_forall.
Qed.

(** The handler that a step runs. *)
Lemma step_cases CHROME_URL (P : State -> Prop) s ev s' :
  step CHROME_URL s ev = Some s' ->
  (forall b, phase s = Constructed -> P (main b s)) ->
  (forall sg, P (on_signal sg s)) ->
  (forall token method url,
     listening s = true -> P (on_request CHROME_URL token method url s)) ->
  (forall r e res,
     nth_error (responses s) r = Some res -> P (fire e (listeners res) s)) ->
  (forall i d cb,
     nth_error (timers s) i = Some (d, cb) ->
     P (run_timer cb (set_timers (remove_nth i (timers s)) s))) ->
  (forall i t o,
     nth_error (tasks s) i = Some t ->
     P (resume t o (set_tasks (remove_nth i (tasks s)) s))) ->
  (forall sv m rpc name obj,
     nth_error (servers s) sv = Some obj ->
     existsb (RpcMethod_eqb m) (sv_handlers obj) = true ->
     P (handler m rpc name s)) ->
  (forall r status res,
     nth_error (responses s) r = Some res -> headersSent res = false ->
     handed_over r s = true ->
     P (update_response r (writeHead status []) s)) ->
  (forall c,
     nth_error (clients s) c = Some Ready ->
     P (client_transition c Ready Dropped s)) ->
  (forall code, listening s = true -> P (on_listen_error code s)) ->
  P s'.
Proof.
  intros Hstep H1 H2 H3 H4 H5 H6 H7 H8 H9 H10.
  apply step_running in Hstep as [_ Hstep].
  destruct ev; cbn [dispatch] in Hstep.
  - destruct (phase s) eqn:Hp; try discriminate.
    injection Hstep as <-. auto.
  - injection Hstep as <-. auto.
  - destruct (listening s) eqn:Hl; [|discriminate].
    injection Hstep as <-. auto.
  - destruct (nth_error (responses s) r) eqn:Hr; [|discriminate].
    injection Hstep as <-. eauto.
  - destruct (nth_error (timers s) i) as [[d cb]|] eqn:Ht; [|discriminate].
    injection Hstep as <-. eauto.
  - destruct (nth_error (tasks s) i) as [t|] eqn:Ht; [|discriminate].
    injection Hstep as <-. eauto.
  - destruct (nth_error (servers s) sv) as [obj|] eqn:Hs; [|discriminate].
    destruct (existsb (RpcMethod_eqb m) (sv_handlers obj)) eqn:Hh;
      [|discriminate].
    injection Hstep as <-. eauto.
  - destruct (nth_error (responses s) r) as [res|] eqn:Hr; [|discriminate].
    destruct (handed_over r s) eqn:Hh; [|discriminate].
    destruct (headersSent res) eqn:Hs; [discriminate|].
    injection Hstep as <-. eauto.
  - destruct (nth_error (clients s) c) as [[]|] eqn:Hc; try discriminate.
    injection Hstep as <-. eauto.
  - destruct (listening s) eqn:Hl; [|discriminate].
    injection Hstep as <-. auto.
Qed.

(** ** The server listens only after a connection attempt *)

Lemma Forall_snoc {A : Type} (P : A -> Prop) (l : list A) (x : A) :
  Forall P l -> P x -> Forall P (l ++ [x]).
Proof.
  intros Hl Hx. apply Forall_app. split; auto.
Qed.

Ltac attempt_tac :=
  unfold attempt_first, running; cbn;
  try (let A := fresh in
       let R := fresh in
       let N := fresh in
       intros A R N; specialize (A R N) as [? ?]);
  try (split; [assumption|]);
  repeat (apply Forall_snoc; [|reflexivity]); auto.

Lemma attempt_first_after_init k s :
  chromeClient s <> None -> attempt_first (after_init k s).
Proof.
  intros Hc. unfold attempt_first. intros _ Hnone. exfalso.
  destruct (same_child_after_init k s) as [H _]. congruence.
Qed.

Lemma attempt_first_await_init k s : attempt_first (await_init k s).
Proof.
  unfold await_init, initChromeConnection.
  destruct (chromeClient s) as [c|] eqn:Hc.
  - apply attempt_first_after_init. congruence.
  - unfold attempt_first. cbn. intros _ Hnone. discriminate.
Qed.

Lemma fire_frame ev ls s :
  listening (fire ev ls s) = listening s /\
  tasks (fire ev ls s) = tasks s /\
  phase (fire ev ls s) = phase s /\
  activeSessions (fire ev ls s) = activeSessions s /\
  responses (fire ev ls s) = responses s /\
  servers (fire ev ls s) = servers s /\
  transports (fire ev ls s) = transports s.
Proof.
  unfold fire. revert s. induction ls as [|l ls IH]; intros s; simpl.
  - repeat split.
  - destruct (IH (if ResEvent_eqb (fst l) ev
                  then run_listener (snd l) s else s))
      as (-> & -> & -> & -> & -> & -> & ->).
    destruct (ResEvent_eqb (fst l) ev); [destruct (snd l)|]; repeat split.
Qed.

Lemma attempt_first_cleanup_sessions idx s :
  attempt_first s -> attempt_first (cleanup_sessions idx s).
Proof.
  intros HA. unfold cleanup_sessions.
  destruct (JsMap.next idx (activeSessions s)) as [[idx' [k sess]]|].
  - revert HA. attempt_tac.
  - unfold cleanup_client. cbn. destruct (chromeClient s) eqn:Hc.
    + unfold attempt_first. cbn. intros _ Hnone. congruence.
    + unfold attempt_first, running. cbn. tauto.
Qed.

Lemma attempt_first_resume t o s :
  running s -> attempt_first s ->
  (chromeClient s = None -> startup_task t = false) ->
  attempt_first (resume t o s).
Proof.
  intros Hrun HA Ht.
  destruct (chromeClient s) as [c|] eqn:Hc.
  - (* a client is in the field: it stays there while the bridge runs *)
    assert (Hkeep : running (resume t o s) ->
                    chromeClient (resume t o s) <> None).
    { destruct t, o; cbn [resume]; intros Hrun';
        try (match goal with
             | |- chromeClient ?x <> None =>
                 let H := fresh in
                 assert (H : same_child s x);
                 [ first
                     [ solve [same_child_tac]
                     | solve [eapply same_child_trans; [|eauto with frame];
                              same_child_tac]
                     | solve [eapply same_child_trans;
                              [|first [apply same_child_after_init
                                      |apply same_child_init_failed
                                      |apply same_child_mcp_forward
                                      |apply same_child_cleanup_sessions]];
                              same_child_tac] ]
                 | destruct H as [H _]; congruence ]
             end).
      all: unfold running in Hrun'; cbn in Hrun'; contradiction. }
    unfold attempt_first. intros Hrun' Hnone. exfalso. now apply Hkeep.
  - specialize (Ht eq_refl).
    destruct t, o; try discriminate; cbn [resume];
      try destruct k; try discriminate;
      try solve [revert HA; attempt_tac];
      try solve [apply attempt_first_cleanup_sessions; revert HA; attempt_tac].
    + unfold after_init. cbn. rewrite Hc. revert HA. attempt_tac.
    + unfold after_init. cbn. rewrite Hc. revert HA. attempt_tac.
    + unfold mcp_forward. destruct (String.eqb method "GET");
        revert HA; attempt_tac.
Qed.

Lemma attempt_first_step CHROME_URL s ev s' :
  step CHROME_URL s ev = Some s' -> attempt_first s -> attempt_first s'.
Proof.
  intros Hstep HA.
  destruct (step_running _ _ _ _ Hstep) as [Hrun _].
  apply (step_cases CHROME_URL attempt_first s ev s' Hstep).
  - intros [|] Hp; unfold main.
    + unfold attempt_first, startStdio. cbn. intros _ Hnone.
      destruct (HA Hrun Hnone) as [Hl HT]. split; [exact Hl|].
      now apply Forall_snoc.
    + apply attempt_first_await_init.
  - intros sg. apply attempt_first_cleanup_sessions. revert HA. attempt_tac.
  - intros token method url Hl.
    unfold attempt_first. intros _ Hnone. exfalso.
    destruct (same_child_on_request CHROME_URL token method url s)
      as [Hc _].
    rewrite Hc in Hnone. destruct (HA Hrun Hnone) as [Hl' _]. congruence.
  - intros r e res Hres.
    destruct (fire_frame e (listeners res) s) as (Hl & Ht & Hp & _).
    destruct (same_child_fire e (listeners res) s) as [Hc _].
    unfold attempt_first, running. rewrite Hl, Ht, Hp, Hc. exact HA.
  - intros i d cb Ht. destruct cb. unfold run_timer, cleanupSession_timeout.
    cbn [activeSessions set_timers].
    destruct (JsMap.get sharedSessionId (activeSessions s));
      revert HA; attempt_tac.
  - intros i t o Ht. apply attempt_first_resume.
    + exact Hrun.
    + unfold attempt_first, running. cbn. intros R N.
      destruct (HA R N) as [Hl HT]. split; [exact Hl|].
      now apply Forall_remove_nth.
    + cbn. intros Hnone. destruct (HA Hrun Hnone) as [_ HT].
      apply nth_error_In in Ht.
      revert t Ht. now apply Forall_forall.
  - intros sv m rpc name obj _ _. destruct m; apply attempt_first_await_init.
  - intros r status res _ _ _. revert HA. attempt_tac.
  - intros c _. revert HA. attempt_tac.
  - intros code _. unfold attempt_first, running, on_listen_error. cbn.
    contradiction.
Qed.

Lemma attempt_first_reachable CHROME_URL s :
  reachable CHROME_URL s -> attempt_first s.
Proof.
  induction 1 as [|s ev s' _ IH Hstep].
  - unfold attempt_first. cbn. auto.
  - eapply attempt_first_step; eauto.
Qed.

(** X1.  The HTTP server begins to listen only after [startHTTP] has made
    its connection attempt, and the field [chromeClient] keeps the client
    of that attempt until the process exits.  So whenever a running bridge
    accepts requests the field is not null, and every health response the
    bridge ever writes says [chrome_connected: true] and
    [tools_available: true], whether or not the child is connected. *)
Theorem health_always_reports_connected CHROME_URL s token method s' :
  reachable CHROME_URL s ->
  step CHROME_URL s (EvRequest token method "/health") = Some s' ->
  chromeClient s <> None /\
  exists res,
    nth_error (responses s') (length (responses s)) = Some res /\
    json_field "chrome_connected" res = Some (JBool true) /\
    json_field "tools_available" res = Some (JBool true).
Proof.
  intros Hreach Hstep.
  assert (Hc : chromeClient s <> None).
  { destruct (step_running _ _ _ _ Hstep) as [Hrun Hd].
    cbn [dispatch] in Hd. destruct (listening s) eqn:Hl; [|discriminate].
    intros Hnone.
    destruct (attempt_first_reachable _ _ Hreach Hrun Hnone) as [Hl' _].
    congruence. }
  split; [exact Hc|].
  apply step_health in Hstep as [_ ->].
  exists (health_response CHROME_URL token s).
  cbn [responses set_responses]. rewrite nth_error_snoc.
  split; [reflexivity|].
  unfold json_field, health_response, health_body. cbn.
  destruct (chromeClient s); [auto|congruence].
Qed.

(** After a start-up whose handshake failed the health check still reports
    a connection. *)
Lemma health_always_reports_connected_witness :
  run default_url init startup_failed = Some failed_state /\
  clients failed_state = [ConnectFailed] /\
  exists s' res,
    step default_url failed_state (EvRequest "a1b2c3d4" "GET" "/health")
    = Some s' /\
    nth_error (responses s') 0 = Some res /\
    json_field "chrome_connected" res = Some (JBool true).
Proof.
  assert (Hs : run default_url init startup_failed = Some failed_state)
    by (vm_compute; reflexivity).
  split; [exact Hs|]. split; [reflexivity|].
  assert (Hr : reachable default_url failed_state)
    by (apply (reachable_run default_url init startup_failed);
        [apply reachable_init|exact Hs]).
  destruct (step default_url failed_state
              (EvRequest "a1b2c3d4" "GET" "/health"))
    as [s'|] eqn:Hstep; [|vm_compute in Hstep; discriminate].
  destruct (health_always_reports_connected default_url failed_state
              "a1b2c3d4" "GET" s' Hr Hstep) as (_ & res & H1 & H2 & _).
  exists s', res. repeat split; assumption.
Defined.

(** ** The registry and its sessions *)

Lemma older_refl {A : Type} (l : list A) : older l l.
Proof. now exists []. Qed.

Lemma older_cons {A : Type} (x : A) (l l' : list A) :
  older l l' -> older l (x :: l').
Proof. intros [new ->]. now exists (x :: new). Qed.

Lemma older_trans {A : Type} (l1 l2 l3 : list A) :
  older l1 l2 -> older l2 l3 -> older l1 l3.
Proof.
  intros [n1 ->] [n2 ->]. exists (n2 ++ n1). now rewrite app_assoc.
Qed.

Lemma older_In {A : Type} (x : A) (l l' : list A) :
  older l l' -> In x l -> In x l'.
Proof. intros [new ->] H. apply in_or_app. now right. Qed.

Lemma extended_refl {A : Type} (l : list A) : extended l l.
Proof. exists []. now rewrite app_nil_r. Qed.

Lemma extended_snoc {A : Type} (x : A) (l l' : list A) :
  extended l l' -> extended l (l' ++ [x]).
Proof. intros [new ->]. exists (new ++ [x]). now rewrite app_assoc. Qed.

Lemma extended_trans {A : Type} (l1 l2 l3 : list A) :
  extended l1 l2 -> extended l2 l3 -> extended l1 l3.
Proof.
  intros [n1 ->] [n2 ->]. exists (n1 ++ n2). now rewrite app_assoc.
Qed.

Lemma extended_nth_error {A : Type} (l l' : list A) i x :
  extended l l' -> nth_error l i = Some x -> nth_error l' i = Some x.
Proof.
  intros [new ->] H. rewrite nth_error_app1; auto.
  apply nth_error_Some. congruence.
Qed.

Lemma grows_refl s : grows s s.
Proof.
  repeat split; [apply older_refl|apply extended_refl|apply extended_refl].
Qed.

Lemma grows_trans s1 s2 s3 : grows s1 s2 -> grows s2 s3 -> grows s1 s3.
Proof.
  intros (A1 & A2 & A3) (B1 & B2 & B3).
  repeat split; eauto using older_trans, extended_trans.
Qed.

Lemma connected_pair_grows s s' v :
  grows s s' -> connected_pair s v -> connected_pair s' v.
Proof.
  intros (G1 & G2 & G3) (C1 & C2 & C3).
  repeat split; eauto using older_In, extended_nth_error.
Qed.

Ltac grows_tac :=
  unfold grows; cbn;
  repeat split;
  first [ solve [repeat apply older_cons; apply older_refl]
        | solve [repeat apply extended_snoc; apply extended_refl] ].

Lemma grows_after_init k s : grows s (after_init k s).
Proof.
  destruct k; unfold after_init; cbn; destruct (chromeClient s); grows_tac.
Qed.

Lemma grows_init_failed k e s : grows s (init_failed k e s).
Proof. destruct k; grows_tac. Qed.

Lemma grows_await_init k s : grows s (await_init k s).
Proof.
  unfold await_init, initChromeConnection.
  destruct (chromeClient s); [apply grows_after_init|grows_tac].
Qed.

Lemma grows_cleanup_sessions idx s : grows s (cleanup_sessions idx s).
Proof.
  unfold cleanup_sessions, cleanup_client.
  destruct (JsMap.next idx (activeSessions s)) as [[idx' [k sess]]|];
    cbn; [|destruct (chromeClient s)]; grows_tac.
Qed.

Lemma grows_mcp_forward r method session s :
  grows s (mcp_forward r method session s).
Proof.
  unfold mcp_forward. destruct (String.eqb method "GET"); grows_tac.
Qed.

Lemma grows_fire ev ls s : grows s (fire ev ls s).
Proof.
  unfold fire. revert s. induction ls as [|l ls IH]; intros s; simpl.
  - apply grows_refl.
  - eapply grows_trans; [|apply IH].
    destruct (ResEvent_eqb (fst l) ev); [destruct (snd l)|]; grows_tac.
Qed.

Lemma grows_on_request CHROME_URL token method url s :
  grows s (on_request CHROME_URL token method url s).
Proof.
  unfold on_request.
  destruct (String.eqb url "/health"); [grows_tac|].
  destruct (String.eqb url "/mcp" || String.prefix "/mcp" url);
    [|grows_tac].
  destruct (String.eqb method "OPTIONS"); [grows_tac|].
  cbn. destruct (JsMap.get sharedSessionId (activeSessions s)).
  - eapply grows_trans; [|apply grows_mcp_forward]. grows_tac.
  - grows_tac.
Qed.

Lemma grows_resume t o s : grows s (resume t o s).
Proof.
  destruct t, o; cbn [resume];
    first
      [ solve [grows_tac]
      | solve [eapply grows_trans;
               [|first [ apply grows_after_init
                       | apply grows_init_failed
                       | apply grows_mcp_forward
                       | apply grows_cleanup_sessions ]];
               grows_tac] ].
Qed.

(** The trace and the stores of servers and transports only grow. *)
Lemma grows_step CHROME_URL s ev s' :
  step CHROME_URL s ev = Some s' -> grows s s'.
Proof.
  intros Hstep.
  apply (step_cases CHROME_URL (grows s) s ev s' Hstep).
  - intros [|] _; unfold main, startStdio, startHTTP.
    + grows_tac.
    + eapply grows_trans; [|apply grows_await_init]. grows_tac.
  - intros sg. unfold on_signal, cleanup.
    eapply grows_trans; [|apply grows_cleanup_sessions]. grows_tac.
  - intros. apply grows_on_request.
  - intros. apply grows_fire.
  - intros i d [] _. unfold run_timer, cleanupSession_timeout. cbn.
    destruct (JsMap.get sharedSessionId (activeSessions s)); grows_tac.
  - intros. eapply grows_trans; [|apply grows_resume]. grows_tac.
  - intros sv [] rpc name obj _ _; unfold handler;
      (eapply grows_trans; [|apply grows_await_init]); grows_tac.
  - intros. grows_tac.
  - intros. grows_tac.
  - intros code _. unfold on_listen_error.
    destruct (String.eqb code "EADDRINUSE"); grows_tac.
Qed.

Lemma quiet_refl s : quiet s s.
Proof. repeat split; auto. Qed.

Lemma quiet_trans s1 s2 s3 : quiet s1 s2 -> quiet s2 s3 -> quiet s1 s3.
Proof.
  intros (A1 & A2 & A3) (B1 & B2 & B3). repeat split; auto.
  destruct B1 as [->|B1]; auto.
Qed.

Ltac quiet_tasks :=
  let r := fresh in
  let m := fresh in
  let sv := fresh in
  let tr := fresh in
  let Hin := fresh in
  intros r m sv tr Hin; cbn in Hin;
  repeat (apply in_app_or in Hin as [Hin|Hin]);
  [assumption|cbn in Hin; intuition discriminate].

Ltac quiet_tac :=
  unfold quiet; cbn;
  split;
  [ first [left; reflexivity
          |right; apply JsMapFacts.entries_clear]
  | split; [first [solve [auto]|quiet_tasks]|auto] ].

Lemma quiet_after_init k s : quiet s (after_init k s).
Proof.
  destruct k; unfold after_init; cbn; destruct (chromeClient s); quiet_tac.
Qed.

Lemma quiet_init_failed k e s : quiet s (init_failed k e s).
Proof. destruct k; quiet_tac. Qed.

Lemma quiet_await_init k s : quiet s (await_init k s).
Proof.
  unfold await_init, initChromeConnection.
  destruct (chromeClient s); [apply quiet_after_init|quiet_tac].
Qed.

Lemma quiet_cleanup_sessions idx s : quiet s (cleanup_sessions idx s).
Proof.
  unfold cleanup_sessions, cleanup_client.
  destruct (JsMap.next idx (activeSessions s)) as [[idx' [k sess]]|];
    cbn; [|destruct (chromeClient s)]; quiet_tac.
Qed.

Lemma quiet_mcp_forward r method session s :
  quiet s (mcp_forward r method session s).
Proof.
  unfold mcp_forward. destruct (String.eqb method "GET"); quiet_tac.
Qed.

Lemma quiet_fire ev ls s : quiet s (fire ev ls s).
Proof.
  unfold fire. revert s. induction ls as [|l ls IH]; intros s; simpl.
  - apply quiet_refl.
  - eapply quiet_trans; [|apply IH].
    destruct (ResEvent_eqb (fst l) ev); [destruct (snd l)|]; quiet_tac.
Qed.

Lemma registry_inv_quiet s s' :
  grows s s' -> quiet s s' -> registry_inv s -> registry_inv s'.
Proof.
  intros Hg (Q1 & Q2 & Q3) [I1 I2 I3 I4 I5]. split.
  - destruct Q1 as [->| ->]; [exact I1|intros k v []].
  - destruct Q1 as [->| ->]; [|intros k v []].
    intros k v Hin. eapply connected_pair_grows; eauto.
  - intros r m sv tr Hin. eapply connected_pair_grows; eauto.
  - destruct Q1 as [->| ->]; [auto|congruence].
  - intros r m sv tr Hin. eauto.
Qed.

Lemma quiet_resume t o s :
  (forall r m sv tr, t <> TMcpConnect r m sv tr) \/ o <> Resolved ->
  quiet s (resume t o s).
Proof.
  intros Ht.
  destruct t, o; cbn [resume];
    try solve
      [ quiet_tac
      | eapply quiet_trans;
        [|first [ apply quiet_after_init
                | apply quiet_init_failed
                | apply quiet_mcp_forward
                | apply quiet_cleanup_sessions ]];
        quiet_tac ].
  destruct Ht as [Ht|Ht]; [|congruence].
  exfalso. eapply Ht. reflexivity.
Qed.

Lemma registry_inv_step CHROME_URL s ev s' :
  step CHROME_URL s ev = Some s' -> registry_inv s -> registry_inv s'.
Proof.
  intros Hstep Hinv. pose proof (grows_step _ _ _ _ Hstep) as Hgrows.
  revert Hgrows.
  apply (step_cases CHROME_URL
           (fun s' => grows s s' -> registry_inv s') s ev s' Hstep).
  - intros [|] _ Hg; apply (registry_inv_quiet s); auto;
      unfold main, startStdio, startHTTP.
    + quiet_tac.
    + eapply quiet_trans; [|apply quiet_await_init]. quiet_tac.
  - intros sg Hg. apply (registry_inv_quiet s); auto.
    unfold on_signal, cleanup.
    eapply quiet_trans; [|apply quiet_cleanup_sessions]. quiet_tac.
  - (* a request *)
    intros token method url Hl Hg. revert Hg. unfold on_request.
    destruct (String.eqb url "/health");
      [intros Hg; apply (registry_inv_quiet s); auto; quiet_tac|].
    destruct (String.eqb url "/mcp" || String.prefix "/mcp" url);
      [|intros Hg; apply (registry_inv_quiet s); auto; quiet_tac].
    destruct (String.eqb method "OPTIONS");
      [intros Hg; apply (registry_inv_quiet s); auto; quiet_tac|].
    cbn [activeSessions update_response set_responses console_log emit
      set_trace].
    destruct (JsMap.get sharedSessionId (activeSessions s)).
    + intros Hg. apply (registry_inv_quiet s); auto.
      eapply quiet_trans; [|apply quiet_mcp_forward]. quiet_tac.
    + cbn. intros Hg. destruct Hinv as [I1 I2 I3 I4 I5].
      assert (Hnew : connected_pair
                (suspend
                   (TMcpConnect (length (responses s)) method
                      (length (servers s)) (length (transports s)))
                   (emit
                      (ServerConnect (length (servers s))
                         (length (transports s)))
                      (set_servers (servers s ++ [shared_server])
                         (set_transports (transports s ++ [StreamableHTTP])
                            s))))
                {| server := length (servers s);
                   transport := length (transports s) |}).
      { unfold connected_pair. cbn. rewrite !nth_error_snoc. auto. }
      split; cbn.
      * exact I1.
      * intros k v Hin. eapply connected_pair_grows; eauto.
      * intros r m sv tr Hin. apply in_app_or in Hin as [Hin|Hin].
        -- eapply connected_pair_grows; eauto.
        -- destruct Hin as [[= <- <- <- <-]|[]].
           destruct Hnew as (N1 & N2 & N3). unfold connected_pair. cbn.
           cbn in N1, N2, N3. auto.
      * exact I4.
      * intros. exact Hl.
  - intros r e res _ Hg. apply (registry_inv_quiet s); auto.
    apply quiet_fire.
  - (* the timer of [cleanupSession] *)
    intros i d [] _ Hg. revert Hg. unfold run_timer, cleanupSession_timeout.
    cbn [activeSessions set_timers].
    destruct (JsMap.get sharedSessionId (activeSessions s)).
    + intros Hg. destruct Hinv as [I1 I2 I3 I4 I5]. split; cbn.
      * intros k v Hin. apply JsMapFacts.In_entries_delete in Hin. eauto.
      * intros k v Hin. apply JsMapFacts.In_entries_delete in Hin.
        eapply connected_pair_grows; eauto.
      * intros r m sv tr Hin. apply in_app_or in Hin as [Hin|Hin].
        -- eapply connected_pair_grows; eauto.
        -- destruct Hin as [Hin|[]]. discriminate.
      * intros Hne. apply I4. intros Hnil. apply Hne.
        destruct (JsMap.entries
                    (JsMap.delete sharedSessionId (activeSessions s)))
          as [|[k v] l] eqn:Hd; [reflexivity|].
        assert (Hin : In (k, v)
                        (JsMap.entries
                           (JsMap.delete sharedSessionId (activeSessions s))))
          by (rewrite Hd; now left).
        apply JsMapFacts.In_entries_delete in Hin.
        rewrite Hnil in Hin. destruct Hin.
      * intros r m sv tr Hin. apply in_app_or in Hin as [Hin|Hin]; eauto.
        destruct Hin as [Hin|[]]. discriminate.
    + intros Hg. apply (registry_inv_quiet s); auto. quiet_tac.
  - (* a settlement *)
    intros i t o Ht Hg.
    assert (Hrem : registry_inv (set_tasks (remove_nth i (tasks s)) s)).
    { destruct Hinv as [I1 I2 I3 I4 I5]. split; cbn; auto.
      - intros r m sv tr Hin. apply In_remove_nth in Hin.
        exact (I3 r m sv tr Hin).
      - intros r m sv tr Hin. apply In_remove_nth in Hin. eauto. }
    assert (Hg' : grows (set_tasks (remove_nth i (tasks s)) s)
                    (resume t o (set_tasks (remove_nth i (tasks s)) s)))
      by apply grows_resume.
    destruct t as [| | | |r method sv tr| | | | | | |];
      try (apply (registry_inv_quiet _ _ Hg'); [|exact Hrem];
           apply quiet_resume; left; intros; discriminate).
    destruct o as [|e];
      [|apply (registry_inv_quiet _ _ Hg'); [|exact Hrem];
        apply quiet_resume; right; discriminate].
    (* [server.connect] has resolved: the pair is stored *)
    apply nth_error_In in Ht.
    destruct Hinv as [I1 I2 I3 I4 I5].
    pose proof (I3 _ _ _ _ Ht) as Hpair.
    pose proof (I5 _ _ _ _ Ht) as Hlisten.
    apply (registry_inv_quiet
             (set_activeSessions
                (JsMap.set sharedSessionId
                   {| server := sv; transport := tr |} (activeSessions s))
                (set_tasks (remove_nth i (tasks s)) s))).
    + cbn [resume]. apply grows_mcp_forward.
    + cbn [resume]. apply quiet_mcp_forward.
    + split; cbn.
      * intros k v Hin. apply JsMapFacts.In_entries_set in Hin as [Hin|Hin].
        -- now injection Hin.
        -- eauto.
      * intros k v Hin. apply JsMapFacts.In_entries_set in Hin as [Hin|Hin].
        -- injection Hin as _ ->. exact Hpair.
        -- exact (I2 k v Hin).
      * intros r' m' sv' tr' Hin. apply In_remove_nth in Hin.
        exact (I3 _ _ _ _ Hin).
      * intros _. exact Hlisten.
      * intros r' m' sv' tr' Hin. exact Hlisten.
  - intros sv m rpc name obj _ _ Hg. apply (registry_inv_quiet s); auto.
    destruct m; unfold handler;
      (eapply quiet_trans; [|apply quiet_await_init]); quiet_tac.
  - intros r status res _ _ _ Hg. apply (registry_inv_quiet s); auto.
    quiet_tac.
  - intros c _ Hg. apply (registry_inv_quiet s); auto. quiet_tac.
  - intros code _ Hg. apply (registry_inv_quiet s); auto.
    unfold on_listen_error. destruct (String.eqb code "EADDRINUSE");
      quiet_tac.
Qed.

Lemma registry_inv_reachable CHROME_URL s :
  reachable CHROME_URL s -> registry_inv s.
Proof.
  induction 1 as [|s ev s' _ IH Hstep].
  - split; cbn; try contradiction; congruence.
  - eapply registry_inv_step; eauto.
Qed.

(** ** The exit of the process *)

Lemma older_no_exit_refl l : older_no_exit l l.
Proof. exists []. split; [reflexivity|constructor]. Qed.

Lemma older_no_exit_cons e l l' :
  is_exit e = false -> older_no_exit l l' -> older_no_exit l (e :: l').
Proof.
  intros He (new & -> & Hnew). exists (e :: new). split; [reflexivity|].
  now constructor.
Qed.

Lemma older_no_exit_trans l1 l2 l3 :
  older_no_exit l1 l2 -> older_no_exit l2 l3 -> older_no_exit l1 l3.
Proof.
  intros (n1 & -> & H1) (n2 & -> & H2). exists (n2 ++ n1).
  split; [now rewrite app_assoc|]. apply Forall_app. now split.
Qed.

Lemma older_no_exit_older l l' : older_no_exit l l' -> older l l'.
Proof. intros (new & -> & _). now exists new. Qed.

Lemma signalled_older l l' : older l l' -> signalled l -> signalled l'.
Proof. intros Ho [sg Hsg]. exists sg. eauto using older_In. Qed.

Lemma calm_refl s : calm s s.
Proof. repeat split; auto. apply older_no_exit_refl. Qed.

Lemma calm_trans s1 s2 s3 : calm s1 s2 -> calm s2 s3 -> calm s1 s3.
Proof.
  intros (A1 & A2 & A3) (B1 & B2 & B3). repeat split.
  - auto.
  - eapply older_no_exit_trans; eauto.
  - auto.
Qed.

Ltac calm_tasks :=
  let t := fresh in
  let Hin := fresh in
  let Ht := fresh in
  intros t Hin Ht; cbn in Hin;
  repeat (apply in_app_or in Hin as [Hin|Hin]);
  [assumption|cbn in Hin; destruct Hin as [<-|[]]; discriminate].

Ltac calm_tac :=
  unfold calm, running; cbn;
  split; [solve [auto]|];
  split;
  [ repeat (apply older_no_exit_cons; [reflexivity|]);
    apply older_no_exit_refl
  | first [solve [auto]|calm_tasks] ].

Lemma exit_inv_calm s s' :
  running s -> calm s s' -> exit_inv s -> exit_inv s'.
Proof.
  intros Hrun (C1 & C2 & C3) [I1 I2 I3].
  pose proof (older_no_exit_older _ _ C2) as Hold.
  split.
  - intros t Hin Ht. eapply signalled_older; eauto.
  - intros _. destruct C2 as (new & -> & Hnew). apply Forall_app. auto.
  - intros c Hc. specialize (C1 Hrun). unfold running in C1.
    rewrite Hc in C1. contradiction.
Qed.

Lemma calm_after_init k s : calm s (after_init k s).
Proof.
  destruct k; unfold after_init; cbn; destruct (chromeClient s); calm_tac.
Qed.

Lemma calm_init_failed k e s : calm s (init_failed k e s).
Proof. destruct k; calm_tac. Qed.

Lemma calm_await_init k s : calm s (await_init k s).
Proof.
  unfold await_init, initChromeConnection.
  destruct (chromeClient s); [apply calm_after_init|calm_tac].
Qed.

Lemma calm_mcp_forward r method session s :
  calm s (mcp_forward r method session s).
Proof.
  unfold mcp_forward. destruct (String.eqb method "GET"); calm_tac.
Qed.

Lemma calm_fire ev ls s : calm s (fire ev ls s).
Proof.
  unfold fire. revert s. induction ls as [|l ls IH]; intros s; simpl.
  - apply calm_refl.
  - eapply calm_trans; [|apply IH].
    destruct (ResEvent_eqb (fst l) ev); [destruct (snd l)|]; calm_tac.
Qed.

Lemma calm_on_request CHROME_URL token method url s :
  calm s (on_request CHROME_URL token method url s).
Proof.
  unfold on_request.
  destruct (String.eqb url "/health"); [calm_tac|].
  destruct (String.eqb url "/mcp" || String.prefix "/mcp" url);
    [|calm_tac].
  destruct (String.eqb method "OPTIONS"); [calm_tac|].
  cbn. destruct (JsMap.get sharedSessionId (activeSessions s)).
  - eapply calm_trans; [|apply calm_mcp_forward]. calm_tac.
  - calm_tac.
Qed.

(** [cleanup], after a signal, either waits for a [close] or exits with
    status 0. *)
Lemma exit_inv_cleanup_sessions idx s :
  running s -> signalled (trace s) -> exit_inv s ->
  exit_inv (cleanup_sessions idx s).
Proof.
  intros Hrun Hsig [I1 I2 I3]. specialize (I2 Hrun).
  unfold cleanup_sessions, cleanup_client.
  destruct (JsMap.next idx (activeSessions s)) as [[idx' [k sess]]|]; cbn.
  - split; cbn.
    + intros _ _ _. eapply signalled_older; [|exact Hsig].
      repeat apply older_cons. apply older_refl.
    + intros _. repeat (constructor; [reflexivity|]). exact I2.
    + intros c Hc. unfold running in Hrun. rewrite Hc in Hrun.
      contradiction.
  - destruct (chromeClient s) as [cl|]; split; cbn.
    + intros _ _ _. eapply signalled_older; [|exact Hsig].
      repeat apply older_cons. apply older_refl.
    + intros _. repeat (constructor; [reflexivity|]). exact I2.
    + intros c Hc. unfold running in Hrun. rewrite Hc in Hrun.
      contradiction.
    + intros t Hin Ht. eapply signalled_older; [|exact Hsig].
      repeat apply older_cons. apply older_refl.
    + contradiction.
    + intros c [= <-]. split.
      * eexists. split; [reflexivity|].
        repeat (constructor; [reflexivity|]). exact I2.
      * left. split; [reflexivity|].
        eapply signalled_older; [|exact Hsig].
        repeat apply older_cons. apply older_refl.
Qed.

Lemma calm_resume t o s :
  cleanup_task t = false ->
  (forall sv, t <> TStdioConnect sv) \/ o = Resolved ->
  calm s (resume t o s).
Proof.
  intros Hc Ht.
  destruct t, o; try discriminate; cbn [resume];
    try solve
      [ calm_tac
      | eapply calm_trans;
        [|first [ apply calm_after_init
                | apply calm_init_failed
                | apply calm_mcp_forward ]];
        calm_tac ].
  destruct Ht as [Ht|Ht]; [|discriminate].
  exfalso. eapply Ht. reflexivity.
Qed.

Lemma exit_inv_remove i s :
  exit_inv s -> exit_inv (set_tasks (remove_nth i (tasks s)) s).
Proof.
  intros [I1 I2 I3]. split; cbn; auto.
  intros t Hin. apply In_remove_nth in Hin. eauto.
Qed.

Lemma exit_inv_signalled s :
  running s -> signalled (trace s) ->
  Forall (fun e => is_exit e = false) (trace s) -> exit_inv s.
Proof.
  intros Hrun Hsig Hno. split; auto.
  intros c Hc. unfold running in Hrun. rewrite Hc in Hrun. contradiction.
Qed.

Lemma exit_inv_exited s0 s c new :
  exit_inv s0 -> running s0 ->
  (forall t, In t (tasks s) -> In t (tasks s0)) ->
  phase s = Exited c ->
  trace s = Exit c :: new ++ trace s0 ->
  Forall (fun e => is_exit e = false) new ->
  (c = 0 /\ signalled (trace s)) \/ (c = 1 /\ start_failed (trace s)) ->
  exit_inv s.
Proof.
  intros [I1 I2 I3] Hrun Ht Hp Htr Hno Hwhy. split.
  - intros t Hin Hc. eapply signalled_older; [|eapply I1; eauto].
    rewrite Htr. exists (Exit c :: new). reflexivity.
  - unfold running. rewrite Hp. contradiction.
  - intros c' Hc'. rewrite Hp in Hc'. injection Hc' as <-. split; auto.
    exists (new ++ trace s0). split; [exact Htr|].
    apply Forall_app. auto.
Qed.

Lemma exit_inv_step CHROME_URL s ev s' :
  step CHROME_URL s ev = Some s' -> exit_inv s -> exit_inv s'.
Proof.
  intros Hstep Hinv.
  destruct (step_running _ _ _ _ Hstep) as [Hrun _].
  apply (step_cases CHROME_URL exit_inv s ev s' Hstep).
  - intros [|] _; apply (exit_inv_calm s); auto;
      unfold main, startStdio, startHTTP.
    + calm_tac.
    + eapply calm_trans; [|apply calm_await_init]. calm_tac.
  - intros sg. unfold on_signal, cleanup.
    apply exit_inv_cleanup_sessions.
    + exact Hrun.
    + exists sg. cbn. now left.
    + apply (exit_inv_calm s); auto. calm_tac.
  - intros. apply (exit_inv_calm s); auto. apply calm_on_request.
  - intros. apply (exit_inv_calm s); auto. apply calm_fire.
  - intros i d [] _. apply (exit_inv_calm s); auto.
    unfold run_timer, cleanupSession_timeout. cbn.
    destruct (JsMap.get sharedSessionId (activeSessions s)); calm_tac.
  - (* a settlement *)
    intros i t o Ht.
    pose proof (exit_inv_remove i s Hinv) as Hrem.
    assert (Hrun' : running (set_tasks (remove_nth i (tasks s)) s))
      by exact Hrun.
    destruct (cleanup_task t) eqn:Hct.
    + (* a continuation of [cleanup] *)
      assert (Hsig : signalled (trace s)).
      { destruct Hinv as [I1 _ _]. apply (I1 t); auto.
        eapply nth_error_In; eauto. }
      pose proof (ei_running _ Hrem Hrun') as Hno. cbn in Hno.
      destruct t, o; try discriminate; cbn [resume].
      * apply exit_inv_signalled; cbn; auto.
        eapply signalled_older; [|exact Hsig]. apply older_cons, older_refl.
      * apply exit_inv_cleanup_sessions; auto.
        -- eapply signalled_older; [|exact Hsig].
           apply older_cons, older_refl.
        -- apply (exit_inv_calm _ _ Hrun'); auto. calm_tac.
      * apply exit_inv_cleanup_sessions; auto.
      * apply exit_inv_cleanup_sessions; auto.
        -- eapply signalled_older; [|exact Hsig].
           apply older_cons, older_refl.
        -- apply (exit_inv_calm _ _ Hrun'); auto. calm_tac.
      * eapply (exit_inv_exited _ _ 0
                  [ConsoleLog "[Shutdown] Cleanup completed"] Hrem Hrun');
          cbn; auto.
        left. split; [reflexivity|].
        eapply signalled_older; [|exact Hsig].
        repeat apply older_cons. apply older_refl.
      * eapply (exit_inv_exited _ _ 0
                  [ConsoleError "[Shutdown] Error during cleanup:"]
                  Hrem Hrun');
          cbn; auto.
        left. split; [reflexivity|].
        eapply signalled_older; [|exact Hsig].
        repeat apply older_cons. apply older_refl.
    + (* any other continuation *)
      destruct t as [| | | | | | | | | | |sv];
        try (apply (exit_inv_calm _ _ Hrun'); [|exact Hrem];
             apply calm_resume; [exact Hct|left; intros; discriminate]).
      destruct o as [|e].
      * apply (exit_inv_calm _ _ Hrun'); [|exact Hrem].
        apply calm_resume; [exact Hct|now right].
      * cbn [resume].
        eapply (exit_inv_exited _ _ 1
                  [ConsoleError "[Fatal] Failed to start server:"]
                  Hrem Hrun');
          cbn; auto.
        right. split; [reflexivity|]. unfold start_failed. cbn. auto.
  - intros sv m rpc name obj _ _. apply (exit_inv_calm s); auto.
    destruct m; unfold handler;
      (eapply calm_trans; [|apply calm_await_init]); calm_tac.
  - intros. apply (exit_inv_calm s); auto. calm_tac.
  - intros. apply (exit_inv_calm s); auto. calm_tac.
  - intros code _. unfold on_listen_error.
    destruct (String.eqb code "EADDRINUSE").
    + eapply (exit_inv_exited s _ 1
                [ConsoleError
                   "[Error] Please close the other application or set a different PORT environment variable.";
                 ConsoleError "[Error] Port is already in use!"]
                Hinv Hrun);
        cbn; auto.
      right. split; [reflexivity|]. unfold start_failed. cbn. auto 10.
    + eapply (exit_inv_exited s _ 1 [ConsoleError "[Error] Server error:"]
                Hinv Hrun);
        cbn; auto.
      right. split; [reflexivity|]. unfold start_failed. cbn. auto 10.
Qed.

Lemma exit_inv_reachable CHROME_URL s : reachable CHROME_URL s -> exit_inv s.
Proof.
  induction 1 as [|s ev s' _ IH Hstep].
  - split; cbn; try contradiction; auto. discriminate.
  - eapply exit_inv_step; eauto.
Qed.



Lemma same_keys_at_most_one {A B : Type} (a : A) (l : list (A * B)) :
  NoDup (map fst l) -> (forall k v, In (k, v) l -> k = a) -> length l <= 1.
Proof.
  destruct l as [|[k1 v1] [|[k2 v2] l]]; simpl; auto.
  intros Hnd Hall. exfalso.
  assert (k1 = a) by (apply (Hall k1 v1); auto).
  assert (k2 = a) by (apply (Hall k2 v2); auto).
  subst. inversion Hnd as [|? ? Hnotin _]. apply Hnotin. now left.
Qed.

Lemma In_entries_get {V : Type} k (v : V) (m : JsMap.t V) :
  JsMap.wf m -> In (k, v) (JsMap.entries m) -> JsMap.get k m = Some v.
Proof.
  unfold JsMap.wf. induction m as [|[[k' v']|] m IH]; simpl; auto.
  - contradiction.
  - intros Hnd [Heq|Hin].
    + injection Heq as -> ->. now rewrite String.eqb_refl.
    + inversion Hnd as [|? ? Hnotin Hnd']; subst.
      destruct (String.eqb k k') eqn:E.
      * apply String.eqb_eq in E; subst k'. exfalso. apply Hnotin.
        apply in_map_iff. exists (k, v). auto.
      * auto.
Qed.

(** X3.  The registry never holds more than one session, and that session
    is under the key ["http-shared"]; sessions exist only while the HTTP
    server listens. *)
Theorem registry_holds_one_shared_session CHROME_URL s :
  reachable CHROME_URL s ->
  JsMap.size (activeSessions s) <= 1 /\
  (forall k v,
     In (k, v) (JsMap.entries (activeSessions s)) ->
     k = sharedSessionId /\
     JsMap.get sharedSessionId (activeSessions s) = Some v) /\
  (listening s = false -> JsMap.entries (activeSessions s) = []).
Proof.
  intros Hreach.
  pose proof (registry_wf_reachable _ _ Hreach) as Hwf.
  destruct (registry_inv_reachable _ _ Hreach) as [I1 _ _ I4 _].
  split; [|split].
  - unfold JsMap.size. eapply same_keys_at_most_one; eauto.
  - intros k v Hin. pose proof (I1 k v Hin) as ->. split; [reflexivity|].
    now apply In_entries_get.
  - intros Hl. destruct (JsMap.entries (activeSessions s)) eqn:He; auto.
    assert (listening s = true) by (apply I4; congruence). congruence.
Qed.

(** The registry after the first [GET]. *)
Lemma registry_holds_one_shared_session_witness :
  run default_url init stream_opened = Some stream_state /\
  JsMap.size (activeSessions stream_state) = 1 /\
  JsMap.size (activeSessions stream_state) <= 1.
Proof.
  split; [vm_compute; reflexivity|]. split; [reflexivity|].
  refine (proj1 (registry_holds_one_shared_session default_url stream_state
                   _)).
  apply (reachable_run default_url init stream_opened);
    [apply reachable_init|vm_compute; reflexivity].
Defined.

(** X4.  A session of the registry is a pair that the bridge itself has
    made and connected: a server made for the shared session, with both
    request handlers, and a streamable HTTP transport, and the call
    [server.connect(transport)] for exactly that pair is in the trace.  A
    call that reaches this server is handled by the bridge's handler. *)
Theorem registered_session_was_connected CHROME_URL s v :
  reachable CHROME_URL s ->
  JsMap.get sharedSessionId (activeSessions s) = Some v ->
  In (ServerConnect (server v) (transport v)) (trace s) /\
  nth_error (servers s) (server v) = Some shared_server /\
  nth_error (transports s) (transport v) = Some StreamableHTTP /\
  (running s ->
   forall m rpc name,
     step CHROME_URL s (EvRpc (server v) m rpc name) =
     Some (handler m rpc name s)).
Proof.
  intros Hreach Hget. apply JsMapFacts.get_In in Hget.
  destruct (registry_inv_reachable _ _ Hreach) as [_ I2 _ _ _].
  destruct (I2 _ _ Hget) as (C1 & C2 & C3).
  repeat split; auto.
  intros Hrun m rpc name. rewrite step_dispatch by exact Hrun.
  cbn [dispatch]. rewrite C2. destruct m; reflexivity.
Qed.

(** The session of the first [GET]. *)
Lemma registered_session_was_connected_witness :
  run default_url init stream_opened = Some stream_state /\
  In (ServerConnect 0 0) (trace stream_state) /\
  nth_error (servers stream_state) 0 = Some shared_server.
Proof.
  split; [vm_compute; reflexivity|].
  destruct (registered_session_was_connected default_url stream_state
              {| server := 0; transport := 0 |}) as (H1 & H2 & _).
  - apply (reachable_run default_url init stream_opened);
      [apply reachable_init|vm_compute; reflexivity].
  - reflexivity.
  - split; [exact H1|exact H2].
Defined.

(** ** Responses *)

Lemma same_reply_refl res : same_reply res res.
Proof. repeat split. Qed.

Lemma served_refl l : served l l.
Proof.
  split.
  - intros r res Hr. exists res. split; [exact Hr|].
    split; [intros _; apply same_reply_refl|auto].
  - intros r res' H1 H2. congruence.
Qed.

Lemma served_trans l1 l2 l3 : served l1 l2 -> served l2 l3 -> served l1 l3.
Proof.
  intros [A1 A2] [B1 B2]. split.
  - intros r res Hr. destruct (A1 r res Hr) as (res2 & H2 & S2 & W2).
    destruct (B1 r res2 H2) as (res3 & H3 & S3 & W3).
    exists res3. split; [exact H3|]. split; [|auto].
    intros Hs. specialize (S2 Hs).
    assert (Hs2 : headersSent res2 = true)
      by (destruct S2 as (_ & _ & _ & -> & _); exact Hs).
    specialize (S3 Hs2).
    destruct S2 as (a1 & a2 & a3 & a4 & a5 & a6).
    destruct S3 as (b1 & b2 & b3 & b4 & b5 & b6).
    repeat split; congruence.
  - intros r res3 H3 H1.
    destruct (nth_error l2 r) as [res2|] eqn:H2.
    + destruct (B1 r res2 H2) as (res3' & H3' & _ & W3).
      rewrite H3 in H3'. injection H3' as <-. apply W3. eauto.
    + eauto.
Qed.

Lemma served_snoc l x : well_ended x -> served l (l ++ [x]).
Proof.
  intros Hx. split.
  - intros r res Hr. exists res. split.
    + rewrite nth_error_app1; auto. apply nth_error_Some. congruence.
    + split; [intros _; apply same_reply_refl|auto].
  - intros r res' H1 H2. apply nth_error_None in H2.
    rewrite nth_error_app2 in H1 by exact H2.
    destruct (r - length l) as [|n]; simpl in H1.
    + now injection H1 as <-.
    + destruct n; discriminate.
Qed.

Lemma served_update l r g :
  (forall res,
     nth_error l r = Some res ->
     (headersSent res = true -> same_reply res (g res)) /\
     (well_ended res -> well_ended (g res))) ->
  served l (update_nth r g l).
Proof.
  intros Hg. split.
  - intros r0 res Hr0. destruct (Nat.eq_dec r r0) as [<-|Hne].
    + exists (g res). rewrite nth_error_update_nth, Hr0.
      split; [reflexivity|]. now apply Hg.
    + exists res. rewrite nth_error_update_nth_ne by exact Hne.
      split; [exact Hr0|]. split; [intros _; apply same_reply_refl|auto].
  - intros r0 res' H1 H2. exfalso.
    apply nth_error_None in H2.
    assert (r0 < length (update_nth r g l))
      by (apply nth_error_Some; congruence).
    rewrite length_update_nth in *. lia.
Qed.

Lemma responses_after_init k s : responses (after_init k s) = responses s.
Proof.
  destruct k; unfold after_init; cbn; destruct (chromeClient s); reflexivity.
Qed.

Lemma responses_init_failed k e s :
  responses (init_failed k e s) = responses s.
Proof. destruct k; reflexivity. Qed.

Lemma responses_await_init k s : responses (await_init k s) = responses s.
Proof.
  unfold await_init, initChromeConnection.
  destruct (chromeClient s); [apply responses_after_init|reflexivity].
Qed.

Lemma responses_cleanup_sessions idx s :
  responses (cleanup_sessions idx s) = responses s.
Proof.
  unfold cleanup_sessions, cleanup_client.
  destruct (JsMap.next idx (activeSessions s)) as [[idx' [k sess]]|];
    cbn; [|destruct (chromeClient s)]; reflexivity.
Qed.

Lemma served_mcp_forward r method session s :
  served (responses s) (responses (mcp_forward r method session s)).
Proof.
  unfold mcp_forward. destruct (String.eqb method "GET"); cbn;
    [|apply served_refl].
  apply served_update. intros res _. split; [intros _|]; auto.
  repeat split.
Qed.

Lemma served_mcp_catch r e s :
  served (responses s) (responses (mcp_catch r e s)).
Proof.
  unfold mcp_catch. cbn. apply served_update. intros res _.
  destruct (headersSent res) eqn:Hs.
  - split; [intros _; apply same_reply_refl|auto].
  - split; [discriminate|]. intros _ _. reflexivity.
Qed.

Lemma served_on_request CHROME_URL token method url s :
  served (responses s) (responses (on_request CHROME_URL token method url s)).
Proof.
  unfold on_request.
  destruct (String.eqb url "/health").
  { cbn. rewrite update_nth_snoc. apply served_snoc. intros _. reflexivity. }
  destruct (String.eqb url "/mcp" || String.prefix "/mcp" url).
  2:{ cbn. rewrite update_nth_snoc. apply served_snoc. intros _.
      reflexivity. }
  destruct (String.eqb method "OPTIONS").
  { cbn. rewrite !update_nth_snoc. apply served_snoc. intros _.
    reflexivity. }
  cbn [activeSessions update_response set_responses console_log emit
    set_trace].
  destruct (JsMap.get sharedSessionId (activeSessions s)).
  - eapply served_trans; [|apply served_mcp_forward].
    cbn. rewrite update_nth_snoc. apply served_snoc. discriminate.
  - cbn. rewrite update_nth_snoc. apply served_snoc. discriminate.
Qed.

Lemma served_resume t o s :
  served (responses s) (responses (resume t o s)).
Proof.
  destruct t, o; cbn [resume];
    rewrite ?responses_after_init, ?responses_init_failed,
      ?responses_cleanup_sessions;
    try solve [cbn; apply served_refl];
    try apply served_mcp_catch.
  eapply served_trans; [|apply served_mcp_forward]. cbn. apply served_refl.
Qed.

Lemma served_step CHROME_URL s ev s' :
  step CHROME_URL s ev = Some s' -> served (responses s) (responses s').
Proof.
  intros Hstep.
  apply (step_cases CHROME_URL
           (fun s' => served (responses s) (responses s')) s ev s' Hstep).
  - intros [|] _; unfold main, startStdio, startHTTP;
      rewrite ?responses_await_init; cbn; apply served_refl.
  - intros sg. unfold on_signal, cleanup.
    rewrite responses_cleanup_sessions. cbn. apply served_refl.
  - intros. apply served_on_request.
  - intros r e res _.
    destruct (fire_frame e (listeners res) s) as (_ & _ & _ & _ & -> & _).
    apply served_refl.
  - intros i d [] _. unfold run_timer, cleanupSession_timeout. cbn.
    destruct (JsMap.get sharedSessionId (activeSessions s)); cbn;
      apply served_refl.
  - intros i t o _.
    apply (served_resume t o (set_tasks (remove_nth i (tasks s)) s)).
  - intros sv m rpc name obj _ _. destruct m; unfold handler;
      rewrite responses_await_init; cbn; apply served_refl.
  - intros r status res Hres Hsent _. cbn. apply served_update.
    intros res0 Hres0. rewrite Hres in Hres0. injection Hres0 as <-.
    split; [congruence|]. intros _ _. reflexivity.
  - intros. cbn. apply served_refl.
  - intros code _. unfold on_listen_error.
    destruct (String.eqb code "EADDRINUSE"); cbn; apply served_refl.
Qed.

Lemma well_ended_reachable CHROME_URL s :
  reachable CHROME_URL s ->
  forall r res, nth_error (responses s) r = Some res -> well_ended res.
Proof.
  induction 1 as [|s ev s' _ IH Hstep]; intros r res Hr.
  - destruct r; discriminate.
  - destruct (served_step _ _ _ _ Hstep) as [S1 S2].
    destruct (nth_error (responses s) r) as [res0|] eqn:Hr0.
    + destruct (S1 r res0 Hr0) as (res' & Hr' & _ & W).
      rewrite Hr in Hr'. injection Hr' as <-. apply W. eauto.
    + eauto.
Qed.

(** X5.  A response whose head has been sent, or which has been ended, is
    never written again: whatever happens next, it keeps its status, its
    headers and its body, and no response ever disappears.  (Listeners may
    still be added to it.) *)
Theorem sent_reply_is_final CHROME_URL s ev s' r res :
  reachable CHROME_URL s ->
  step CHROME_URL s ev = Some s' ->
  nth_error (responses s) r = Some res ->
  headersSent res = true \/ ended res = true ->
  exists res',
    nth_error (responses s') r = Some res' /\
    statusCode res' = statusCode res /\
    headers res' = headers res /\
    body res' = body res /\
    headersSent res' = true /\
    ended res' = ended res.
Proof.
  intros Hreach Hstep Hr Hdone.
  assert (Hs : headersSent res = true).
  { destruct Hdone as [H|H]; [exact H|].
    exact (well_ended_reachable _ _ Hreach r res Hr H). }
  destruct (served_step _ _ _ _ Hstep) as [S1 _].
  destruct (S1 r res Hr) as (res' & Hr' & S & _).
  destruct (S Hs) as (_ & a2 & a3 & a4 & a5 & a6).
  exists res'. repeat split; congruence.
Qed.

(** After the transport has sent a head, a failure of [handleRequest]
    leaves the reply alone. *)
Lemma sent_reply_is_final_witness :
  run default_url init post_answered = Some answered_state /\
  exists res',
    nth_error
      (responses
         (resume (TMcpHandle 0) (Rejected (ErrorObj "socket hang up"))
            (set_tasks [] answered_state))) 0 = Some res' /\
    statusCode res' = Some 200 /\
    body res' = NoBody.
Proof.
  split; [vm_compute; reflexivity|].
  destruct (sent_reply_is_final default_url answered_state
              (EvSettle 0 (Rejected (ErrorObj "socket hang up")))
              (resume (TMcpHandle 0) (Rejected (ErrorObj "socket hang up"))
                 (set_tasks [] answered_state))
              0
              (writeHead 200 []
                 (setHeader "Access-Control-Allow-Headers" "Content-Type"
                    (setHeader "Access-Control-Allow-Methods"
                       "GET, POST, OPTIONS"
                       (setHeader "Access-Control-Allow-Origin" "*"
                          (fresh_response "a1b2c3d4"))))))
    as (res' & H1 & H2 & _ & H4 & _).
  - apply (reachable_run default_url init post_answered);
      [apply reachable_init|vm_compute; reflexivity].
  - reflexivity.
  - reflexivity.
  - left. reflexivity.
  - exists res'. split; [exact H1|]. split; [exact H2|exact H4].
Defined.

(** ** The router *)

Lemma not_mcp_url url :
  String.prefix "/mcp" url = false ->
  String.eqb url "/mcp" || String.prefix "/mcp" url = false.
Proof.
  intros Hp. rewrite Hp, orb_false_r.
  destruct (String.eqb url "/mcp") eqn:E; [|reflexivity].
  apply String.eqb_eq in E; subst url. discriminate.
Qed.

(** X6.  A request for a path that is neither exactly [/health] nor begins
    with [/mcp] (so also [/health/] or [/health?verbose=1]) is answered at
    once with status 404 and a plain text; it creates no session, suspends
    nothing, sets no timer and makes no call into the SDK, whatever its
    method. *)
Theorem unknown_path_is_not_found CHROME_URL token method url s :
  String.eqb url "/health" = false ->
  String.prefix "/mcp" url = false ->
  let s' := on_request CHROME_URL token method url s in
  responses s' = responses s ++ [not_found_response token] /\
  statusCode (not_found_response token) = Some 404 /\
  ended (not_found_response token) = true /\
  chromeClient s' = chromeClient s /\
  activeSessions s' = activeSessions s /\
  clients s' = clients s /\
  servers s' = servers s /\
  transports s' = transports s /\
  tasks s' = tasks s /\
  timers s' = timers s /\
  calls (trace s') = calls (trace s).
Proof.
  intros Hh Hm. cbv zeta. unfold on_request.
  rewrite Hh, (not_mcp_url url Hm). cbn.
  rewrite update_nth_snoc. repeat split.
Qed.

(** A query string makes the health path unknown. *)
Lemma unknown_path_is_not_found_witness :
  String.eqb "/health?verbose=1" "/health" = false /\
  String.prefix "/mcp" "/health?verbose=1" = false /\
  responses (on_request default_url "a1b2c3d4" "GET" "/health?verbose=1" init)
  = [not_found_response "a1b2c3d4"].
Proof.
  split; [reflexivity|]. split; [reflexivity|].
  exact (proj1 (unknown_path_is_not_found default_url "a1b2c3d4" "GET"
                  "/health?verbose=1" init eq_refl eq_refl)).
Defined.

(** X7.  An [OPTIONS] request on a path that begins with [/mcp] is answered
    at once with status 200, the three CORS headers and no body.  It never
    looks up or creates a session, even when the registry is empty, and
    nothing is handed to a transport. *)
Theorem preflight_creates_no_session CHROME_URL token url s :
  String.prefix "/mcp" url = true ->
  let s' := on_request CHROME_URL token "OPTIONS" url s in
  responses s' = responses s ++ [preflight_response token] /\
  statusCode (preflight_response token) = Some 200 /\
  body (preflight_response token) = NoBody /\
  headers (preflight_response token) =
    [("Access-Control-Allow-Origin", "*");
     ("Access-Control-Allow-Methods", "GET, POST, OPTIONS");
     ("Access-Control-Allow-Headers", "Content-Type")] /\
  activeSessions s' = activeSessions s /\
  servers s' = servers s /\
  transports s' = transports s /\
  tasks s' = tasks s /\
  timers s' = timers s /\
  calls (trace s') = calls (trace s).
Proof.
  intros Hm. cbv zeta. unfold on_request.
  assert (Hurl : String.eqb url "/mcp" || String.prefix "/mcp" url = true)
    by (rewrite Hm; apply orb_true_r).
  rewrite (mcp_url_not_health _ Hurl), Hurl. cbn.
  rewrite !update_nth_snoc. repeat split.
Qed.

(** A preflight on the fresh bridge. *)
Lemma preflight_creates_no_session_witness :
  String.prefix "/mcp" "/mcp" = true /\
  responses (on_request default_url "a1b2c3d4" "OPTIONS" "/mcp" init) =
    [preflight_response "a1b2c3d4"] /\
  servers (on_request default_url "a1b2c3d4" "OPTIONS" "/mcp" init) = [].
Proof.
  split; [reflexivity|].
  destruct (preflight_creates_no_session default_url "a1b2c3d4" "/mcp" init
              eq_refl) as (H1 & _ & _ & _ & _ & H6 & _).
  split; [exact H1|exact H6].
Defined.

(** ** Start-up and calls *)

Lemma run_main CHROME_URL b s evs :
  phase s = Constructed ->
  run CHROME_URL s (EvMain b :: evs) = run CHROME_URL (main b s) evs.
Proof.
  intros Hp. cbn [run]. unfold step. rewrite Hp. cbn [dispatch].
  now rewrite Hp.
Qed.

Lemma run_settle_at CHROME_URL s i t o evs :
  running s -> nth_error (tasks s) i = Some t ->
  run CHROME_URL s (EvSettle i o :: evs) =
  run CHROME_URL (resume t o (set_tasks (remove_nth i (tasks s)) s)) evs.
Proof.
  intros Hrun Ht. cbn [run]. rewrite step_dispatch by exact Hrun.
  cbn [dispatch]. now rewrite Ht.
Qed.

Lemma run_rpc CHROME_URL s sv obj m rpc name evs :
  running s -> nth_error (servers s) sv = Some obj ->
  existsb (RpcMethod_eqb m) (sv_handlers obj) = true ->
  run CHROME_URL s (EvRpc sv m rpc name :: evs) =
  run CHROME_URL (handler m rpc name s) evs.
Proof.
  intros Hrun Hs Hh. cbn [run]. rewrite step_dispatch by exact Hrun.
  cbn [dispatch]. now rewrite Hs, Hh.
Qed.

(** Settle the continuation that was suspended last. *)
Ltac settle_newest :=
  erewrite run_settle_at;
  [ cbn [tasks suspend set_tasks]; rewrite remove_nth_snoc
  | unfold running; cbn; auto
  | cbn [tasks suspend set_tasks emit set_trace console_log
      set_chromeClient set_clients set_phase client_transition
      set_activeSessions set_servers set_transports set_responses
      update_response];
    apply nth_error_snoc ].



(** X9.  A call that arrives while the bridge has a client is relayed: it
    is forwarded once to the client in the field [chromeClient], and when
    the child has answered the caller gets that same outcome, a result as a
    result and an error as the same error.  No child is started and nothing
    else in the bridge changes. *)
Theorem call_is_relayed_to_child CHROME_URL s sv obj m rpc name c o :
  running s ->
  chromeClient s = Some c ->
  nth_error (servers s) sv = Some obj ->
  existsb (RpcMethod_eqb m) (sv_handlers obj) = true ->
  exists s',
    run CHROME_URL s [EvRpc sv m rpc name; EvSettle (length (tasks s)) o]
    = Some s' /\
    calls (trace s') =
      RpcReply rpc o :: forwarded m c name :: calls (trace s) /\
    chromeClient s' = Some c /\
    clients s' = clients s /\
    tasks s' = tasks s /\
    activeSessions s' = activeSessions s /\
    servers s' = servers s /\
    phase s' = phase s.
Proof.
  intros Hrun Hc Hs Hh.
  erewrite run_rpc by eauto.
  destruct m; unfold handler, await_init, initChromeConnection;
    cbn [chromeClient console_log emit set_trace]; rewrite Hc;
    cbn [after_init chromeClient console_log emit set_trace]; try rewrite Hc;
    (erewrite run_settle_at;
     [ cbn [tasks suspend set_tasks emit set_trace]; rewrite remove_nth_snoc
     | exact Hrun
     | cbn [tasks suspend set_tasks emit set_trace]; apply nth_error_snoc ]);
    destruct o as [|e]; cbn [resume run];
    (eexists; split; [reflexivity|]); cbn; repeat split; auto.
Qed.

Lemma call_is_relayed_to_child_witness :
  exists s',
    run default_url post_state
      [EvRpc 0 CallTool 7 "take_screenshot";
       EvSettle 1 (Rejected (ErrorObj "Not connected"))]
    = Some s' /\
    calls (trace s') =
      RpcReply 7 (Rejected (ErrorObj "Not connected"))
        :: ClientCallTool 0 "take_screenshot" :: calls (trace post_state).
Proof.
  destruct (call_is_relayed_to_child default_url post_state 0
              {| sv_session := sharedSessionId;
                 sv_handlers := [ListTools; CallTool] |}
              CallTool 7 "take_screenshot" 0
              (Rejected (ErrorObj "Not connected"))
              I eq_refl eq_refl eq_refl)
    as (s' & H1 & H2 & _).
  exists s'. split; [exact H1|exact H2].
Defined.

(** X10.  A call that arrives while the bridge has no client, as the first
    call in stdio mode does, starts the child: a client is constructed and
    stored in the field, and one child is spawned.  If the handshake
    resolves, the call is forwarded to the new client and the caller gets
    the child's outcome; if it is rejected, the caller gets that error and
    nothing is forwarded. *)
Theorem first_call_starts_child CHROME_URL s sv obj m rpc name o1 o2 :
  running s ->
  chromeClient s = None ->
  nth_error (servers s) sv = Some obj ->
  existsb (RpcMethod_eqb m) (sv_handlers obj) = true ->
  let c := length (clients s) in
  exists s',
    run CHROME_URL s
      (first_call_events (length (tasks s)) sv m rpc name o1 o2)
    = Some s' /\
    chromeClient s' = Some c /\
    clients s' =
      clients s ++ [match o1 with
                    | Resolved => Ready
                    | Rejected _ => ConnectFailed
                    end] /\
    tasks s' = tasks s /\
    calls (trace s') =
      match o1 with
      | Resolved =>
          RpcReply rpc o2 :: forwarded m c name :: Spawn c
            :: calls (trace s)
      | Rejected e => RpcReply rpc (Rejected e) :: Spawn c :: calls (trace s)
      end.
Proof.
  intros Hrun Hc Hs Hh c. subst c. unfold first_call_events.
  erewrite run_rpc by eauto.
  assert (Hphase : forall s1, phase s1 = phase s -> running s1).
  { intros s1 H1. unfold running. rewrite H1. exact Hrun. }
  destruct m; unfold handler, await_init, initChromeConnection;
    cbn [chromeClient console_log emit set_trace]; rewrite Hc;
    (erewrite run_settle_at;
     [ cbn [tasks suspend set_tasks]; rewrite remove_nth_snoc
     | apply Hphase; reflexivity
     | cbn [tasks suspend set_tasks emit set_trace console_log
         set_chromeClient set_clients];
       apply nth_error_snoc ]);
    destruct o1 as [|e1]; cbn [resume after_init init_failed];
    cbn [chromeClient console_log emit set_trace set_tasks
      client_transition set_clients set_chromeClient suspend];
    try (erewrite run_settle_at;
         [ cbn [tasks suspend set_tasks]; rewrite remove_nth_snoc
         | apply Hphase; reflexivity
         | cbn [tasks suspend set_tasks emit set_trace console_log
             set_chromeClient set_clients];
           apply nth_error_snoc ];
         destruct o2 as [|e2]);
    cbn [resume run];
    (eexists; split; [reflexivity|]); cbn; rewrite update_nth_snoc; cbn;
    repeat split; auto.
Qed.

(** The first call in stdio mode, with a child that cannot be spawned. *)
Lemma first_call_starts_child_witness :
  exists s',
    run default_url stdio_state
      (first_call_events 0 0 ListTools 1 ""
         (Rejected (ErrorObj "spawn npx ENOENT")) Resolved)
    = Some s' /\
    chromeClient s' = Some 0 /\
    clients s' = [ConnectFailed] /\
    calls (trace s') =
      RpcReply 1 (Rejected (ErrorObj "spawn npx ENOENT")) :: Spawn 0
        :: calls (trace stdio_state).
Proof.
  destruct (first_call_starts_child default_url stdio_state 0 stdio_server
              ListTools 1 "" (Rejected (ErrorObj "spawn npx ENOENT"))
              Resolved I eq_refl eq_refl eq_refl)
    as (s' & H1 & H2 & H3 & _ & H5).
  exists s'. repeat split; assumption.
Defined.

(** ** Stdio mode *)

Lemma run_invariant CHROME_URL (P : State -> Prop) :
  (forall s ev s', P s -> step CHROME_URL s ev = Some s' -> P s') ->
  forall evs s s', P s -> run CHROME_URL s evs = Some s' -> P s'.
Proof.
  intros Hstep. induction evs as [|ev evs IH]; intros s s' Hs; cbn [run].
  - now intros [= <-].
  - destruct (step CHROME_URL s ev) as [s1|] eqn:H1; [|discriminate].
    apply IH. eapply Hstep; eauto.
Qed.

Ltac stdio_tac :=
  split; cbn; auto; try discriminate;
  try (apply Forall_snoc; [assumption|reflexivity]);
  repeat (apply Forall_cons; [reflexivity|]); auto.

Lemma stdio_inv_await_init k s :
  match k with FromStartHTTP => False | _ => True end ->
  stdio_inv s -> stdio_inv (await_init k s).
Proof.
  intros Hk [I1 I2 I3 I4 I5 I6 I7 I8 I9].
  unfold await_init, initChromeConnection.
  destruct (chromeClient s) as [c|] eqn:Hc.
  - destruct k; [contradiction| |]; cbn [after_init]; rewrite Hc; stdio_tac.
  - destruct k; [contradiction| |]; stdio_tac.
Qed.

Lemma stdio_inv_step CHROME_URL s ev s' :
  stdio_inv s -> step CHROME_URL s ev = Some s' -> stdio_inv s'.
Proof.
  intros Hinv Hstep.
  pose proof Hinv as [I1 I2 I3 I4 I5 I6 I7 I8 I9].
  apply (step_cases CHROME_URL stdio_inv s ev s' Hstep).
  - intros b Hp. contradiction.
  - intros sg. unfold on_signal, cleanup, cleanup_sessions.
    cbn [activeSessions console_log emit set_trace]. rewrite I2.
    cbn [JsMap.next JsMap.scan skipn JsMap.empty].
    unfold cleanup_client.
    cbn [activeSessions console_log emit set_trace set_activeSessions
      chromeClient].
    destruct (chromeClient s) as [c|]; stdio_tac.
    all: rewrite I2; reflexivity.
  - intros ? ? ? Hl. congruence.
  - intros r e res Hr. rewrite I4 in Hr. now destruct r.
  - intros i d cb Ht. rewrite I3 in Ht. now destruct i.
  - intros i t o Ht.
    assert (Htask : stdio_task t = true).
    { rewrite Forall_forall in I8. apply I8. eapply nth_error_In; eauto. }
    assert (Hrem : stdio_inv (set_tasks (remove_nth i (tasks s)) s)).
    { split; auto. cbn. now apply Forall_remove_nth. }
    revert Hrem. generalize (set_tasks (remove_nth i (tasks s)) s).
    clear - Htask. intros s1 [I1 I2 I3 I4 I5 I6 I7 I8 I9].
    destruct t as [c k| | | | | | | | | | |]; try discriminate.
    + assert (Hs2 : forall st,
                stdio_inv (client_transition c Connecting st s1))
        by (intros; stdio_tac).
      destruct o as [|e]; cbn [resume].
      * specialize (Hs2 Ready). revert Hs2.
        generalize (client_transition c Connecting Ready s1).
        intros s2 [J1 J2 J3 J4 J5 J6 J7 J8 J9].
        destruct k; try discriminate; cbn [after_init];
          cbn [chromeClient console_log emit set_trace];
          destruct (chromeClient s2); stdio_tac.
      * destruct k; try discriminate; stdio_tac.
    + destruct o; stdio_tac.
    + destruct o; stdio_tac.
    + destruct o; cbn [resume]; stdio_tac.
    + destruct o; stdio_tac.
  - intros sv m rpc name obj _ _.
    destruct m; unfold handler; apply stdio_inv_await_init; auto; stdio_tac.
  - intros r status res Hr. rewrite I4 in Hr. now destruct r.
  - intros c Hc. stdio_tac.
  - intros code Hl. congruence.
Qed.

(** X11.  In stdio mode the bridge has no HTTP side: it never listens, its
    registry stays empty, and its one server and transport are those of
    [startStdio].  No request is handed to a transport, and no transport or
    server is ever closed, not even at shutdown, which closes the client
    only. *)
Theorem stdio_mode_has_no_http_side CHROME_URL evs s :
  run CHROME_URL init (EvMain true :: evs) = Some s ->
  listening s = false /\
  activeSessions s = JsMap.empty /\
  servers s = [stdio_server] /\
  transports s = [StdioServer] /\
  responses s = [] /\
  forall e, In e (trace s) -> http_effect e = false.
Proof.
  cbn [run]. unfold step. cbn [phase init dispatch].
  intros Hrun.
  assert (Hinv : stdio_inv s).
  { eapply (run_invariant CHROME_URL stdio_inv); [|idtac|exact Hrun].
    - intros. eapply stdio_inv_step; eauto.
    - stdio_tac. }
  destruct Hinv as [I1 I2 I3 I4 I5 I6 I7 I8 I9].
  repeat split; auto. now apply Forall_forall.
Qed.

Lemma stdio_mode_has_no_http_side_witness :
  run default_url init stdio_session = Some stdio_session_end /\
  phase stdio_session_end = Exited 0 /\
  servers stdio_session_end = [stdio_server] /\
  forall e, In e (trace stdio_session_end) -> http_effect e = false.
Proof.
  assert (H : run default_url init stdio_session = Some stdio_session_end)
    by (vm_compute; reflexivity).
  split; [exact H|]. split; [reflexivity|].
  destruct (stdio_mode_has_no_http_side default_url _ _ H)
    as (_ & _ & H3 & _ & _ & H6).
  split; [exact H3|exact H6].
Defined.
